(** * The dependency-injection container of fastapi_toolkit

    A shallow embedding of [fastapi_toolkit/dependency_injection.py]
    (class [DIContainer]) and the properties of its resolution algorithm.

    The three dictionaries of the container are finite maps; the Python
    program around the container (which keys are classes, what their
    constructors look like, what the registered callables do) is a
    parameter of the development.  Methods that can raise, call user code
    or recurse live in a state-and-exception monad over the program state. *)

From Stdlib Require Import String List Lia ZArith.
From stdpp Require Import gmap strings list fin_maps sorting.
Import ListNotations.

(** ** Python values that the container manipulates *)

Section Container.

(** [key] is whatever is used as a dictionary key ([interface], [cls]):
    a type object or any other hashable value. *)
Context {key : Type} `{Countable key}.

(** [value]: Python objects stored and returned by the container;
    [callable]: the objects registered as factories (references to
    zero-argument callables); [world]: the rest of the program state,
    which impure factories and constructors may read and write. *)
Context {value world callable : Type}.

(** Exceptions.  Both [raise ValueError(...)] statements of the source
    are kept apart by their message. *)
Inductive exn : Type :=
| ValueError (m : message)
| TypeError (missing : list string)   (* a call whose arguments do not bind *)
| RecursionError                      (* maximum recursion depth exceeded *)
| OtherException (name : string)      (* any other subclass of Exception *)
| NonException (name : string)        (* BaseException only: KeyboardInterrupt, SystemExit, ... *)
with message : Type :=
| NoRegistrationFound (interface : key)           (* f"No registration found for {interface}" *)
| FailedToAutoWire (cls : key) (cause : exn)      (* f"Failed to auto-wire {cls}: {e}" *)
| Text (s : string).

(** [isinstance(e, Exception)]: what [except Exception] catches. *)
Definition is_Exception (e : exn) : bool :=
  match e with
  | NonException _ => false
  | _ => true
  end.

(** The two failures the specification names. *)
Definition UnresolvedDependency (k : key) : exn :=
  ValueError (NoRegistrationFound k).
Definition AutoWireFailure (cls : key) (cause : exn) : exn :=
  ValueError (FailedToAutoWire cls cause).

(** The innermost exception of a chain of auto-wire failures. *)
Fixpoint root_cause (e : exn) : exn :=
  match e with
  | ValueError (FailedToAutoWire _ cause) => root_cause cause
  | _ => e
  end.

Inductive outcome (A : Type) : Type :=
| Return (a : A)
| Raise (e : exn).
Arguments Return {A} a.
Arguments Raise {A} e.

Definition returns_normally {A} (r : outcome A) : bool :=
  match r with Return _ => true | Raise _ => false end.

(** ** The container *)

Record DIContainer : Type := mkDIContainer {
  _services : gmap key value;
  _singletons : gmap key value;
  _factories : gmap key callable
}.

(** [DIContainer.__init__] *)
Definition __init__ : DIContainer :=
  {| _services := ∅; _singletons := ∅; _factories := ∅ |}.

Definition register_singleton (interface : key) (implementation : value)
    (self : DIContainer) : DIContainer :=
  {| _services := _services self;
     _singletons := <[interface := implementation]> (_singletons self);
     _factories := _factories self |}.

Definition register_transient (interface : key) (factory : callable)
    (self : DIContainer) : DIContainer :=
  {| _services := _services self;
     _singletons := _singletons self;
     _factories := <[interface := factory]> (_factories self) |}.

Definition register_instance (interface : key) (instance : value)
    (self : DIContainer) : DIContainer :=
  {| _services := <[interface := instance]> (_services self);
     _singletons := _singletons self;
     _factories := _factories self |}.

(** ** Program state and the monad of methods *)

(** Calls into user code made by the container, in order.  The log is
    kept by the semantics of a call; user code cannot see it. *)
Inductive call_event : Type :=
| Invoked (factory : callable)
| Constructed (cls : key) (kwargs : list (string * value)).

Record pystate : Type := mkState {
  di : DIContainer;        (* the container object ([self]) *)
  heap : world;            (* everything else *)
  calls : list call_event
}.

Definition M (A : Type) : Type := pystate → outcome A * pystate.

Definition ret {A} (a : A) : M A := λ st, (Return a, st).
Definition raise {A} (e : exn) : M A := λ st, (Raise e, st).
Definition bind {A B} (m : M A) (k : A → M B) : M B :=
  λ st, match m st with
        | (Return a, st') => k a st'
        | (Raise e, st') => (Raise e, st')
        end.

Local Notation "'let*' x ':=' m 'in' k" := (bind m (λ x, k))
  (at level 10, x name, m at level 100, k at level 200).

(** [try: m  except Exception as e: h e] *)
Definition try_except {A} (m : M A) (h : exn → M A) : M A :=
  λ st, match m st with
        | (Raise e, st') => if is_Exception e then h e st' else (Raise e, st')
        | r => r
        end.

(** ** The surrounding program *)

(** The kinds of parameters that [inspect] tells apart. *)
Inductive param_kind : Type :=
| POSITIONAL_ONLY
| POSITIONAL_OR_KEYWORD
| VAR_POSITIONAL
| KEYWORD_ONLY
| VAR_KEYWORD.

(** One entry of [inspect.signature(cls.__init__).parameters], joined
    with [get_type_hints(cls.__init__)]: [annotation] is
    [type_hints.get(param_name)].  [has_default] also holds for
    the variadic parameters, which never need an argument. *)
Record param : Type := mkParamOfKind {
  param_name : string;
  annotation : option key;
  has_default : bool;
  kind : param_kind
}.

(** An ordinary parameter, which can be passed by position or by name. *)
Definition mkParam (name : string) (annotation : option key)
    (has_default : bool) : param :=
  mkParamOfKind name annotation has_default POSITIONAL_OR_KEYWORD.

(** The program around the container, as far as [get] can see it.
    Inspecting the constructor of a class ([inspect.signature],
    [get_type_hints]) is taken to succeed, the receiver to be called
    [self], and an annotation, being a type, to be truthy. *)
Record program : Type := mkProgram {
  (** [inspect.isclass] *)
  isclass : key → bool;
  (** the parameters of [cls.__init__], receiver included *)
  parameters : key → list param;
  (** what a registered callable does when called with no argument: it
      may raise, and may change the container and the rest of the state *)
  run_callable :
    callable → DIContainer → world → outcome value * DIContainer * world;
  (** the body of the constructor of a class once its arguments are bound *)
  run_init :
    key → list (string * value) → DIContainer → world →
    outcome value * DIContainer * world
}.

Variable P : program.

(** [factory()] *)
Definition call_factory (factory : callable) : M value :=
  λ st, let '(r, c, w) := run_callable P factory (di st) (heap st) in
        (r, mkState c w (calls st ++ [Invoked factory])).

(** A parameter of this kind takes the keyword argument of its name. *)
Definition takes_keyword (k : param_kind) : bool :=
  match k with
  | POSITIONAL_OR_KEYWORD | KEYWORD_ONLY => true
  | POSITIONAL_ONLY | VAR_POSITIONAL | VAR_KEYWORD => false
  end.

(** [p] gets its argument from [kwargs]. *)
Definition bound_by_keyword (kwargs : list (string * value)) (p : param)
    : bool :=
  takes_keyword (kind p) && bool_decide (param_name p ∈ map fst kwargs).

(** The keywords of [kwargs] that the call does not accept: those that
    name no parameter taking keywords, unless the signature has a
    parameter that collects the keywords left over. *)
Definition rejected_keywords (ps : list param)
    (kwargs : list (string * value)) : list string :=
  if existsb (λ p, match kind p with VAR_KEYWORD => true | _ => false end) ps
  then []
  else List.filter
         (λ k, negb (existsb (λ p, String.eqb (param_name p) k
                                   && takes_keyword (kind p)) ps))
         (map fst kwargs).

(** Parameters of the constructor that must be passed and get no
    argument from [kwargs]; the receiver is bound by the call itself. *)
Definition missing_required (ps : list param)
    (kwargs : list (string * value)) : list string :=
  map param_name
    (List.filter (λ p, negb (String.eqb (param_name p) "self")
                  && negb (has_default p)
                  && negb (bound_by_keyword kwargs p))
            ps).

(** What the binding of the arguments fails on: the keywords that are
    not accepted, then the required parameters left without argument.
    (Python reports the first of the two groups that is not empty.) *)
Definition unbound_names (ps : list param) (kwargs : list (string * value))
    : list string :=
  rejected_keywords ps kwargs ++ missing_required ps kwargs.

(** The call of [cls] with the keyword arguments [kwargs]: argument
    binding, which fails with [TypeError], then the constructor body. *)
Definition call_class (cls : key) (kwargs : list (string * value)) : M value :=
  λ st, match unbound_names (parameters P cls) kwargs with
        | [] =>
            let '(r, c, w) := run_init P cls kwargs (di st) (heap st) in
            (r, mkState c w (calls st ++ [Constructed cls kwargs]))
        | names => (Raise (TypeError names), st)
        end.

(** ** [get] and [_auto_wire] *)

(** The loop of [_auto_wire] over [sig.parameters.items()]. *)
Fixpoint build_kwargs (get : key → M value) (ps : list param)
    (kwargs : list (string * value)) : M (list (string * value)) :=
  match ps with
  | [] => ret kwargs
  | p :: ps' =>
      if String.eqb (param_name p) "self" then build_kwargs get ps' kwargs
      else match annotation p with
           | Some param_type =>
               let* v := get param_type in
               build_kwargs get ps' (kwargs ++ [(param_name p, v)])
           | None => build_kwargs get ps' kwargs
           end
  end.

Definition _auto_wire (get : key → M value) (cls : key) : M value :=
  try_except
    (let* kwargs := build_kwargs get (parameters P cls) [] in
     call_class cls kwargs)
    (λ e, raise (AutoWireFailure cls e)).

(** [get] and [_auto_wire] call each other.  [depth] is the number of
    nested [get] frames the interpreter still allows; a call beyond it
    raises [RecursionError], as Python does at its recursion limit.
    [_auto_wire] takes the [get] of the frames below as an argument. *)
Fixpoint get (depth : nat) (interface : key) : M value :=
  match depth with
  | O => raise RecursionError
  | S depth' =>
      λ st,
        match _singletons (di st) !! interface with
        | Some v => (Return v, st)
        | None =>
            match _services (di st) !! interface with
            | Some v => (Return v, st)
            | None =>
                match _factories (di st) !! interface with
                | Some factory => call_factory factory st
                | None =>
                    if isclass P interface
                    then _auto_wire (get depth') interface st
                    else raise (ValueError (NoRegistrationFound interface)) st
                end
            end
        end
  end.

(** ** Vocabulary for the statements *)

(** A registration call, and a sequence of them applied to a container. *)
Inductive registration : Type :=
| RegisterSingleton (interface : key) (implementation : value)
| RegisterTransient (interface : key) (factory : callable)
| RegisterInstance (interface : key) (instance : value).

Definition registration_key (r : registration) : key :=
  match r with
  | RegisterSingleton k _ | RegisterTransient k _ | RegisterInstance k _ => k
  end.

Definition register (r : registration) (self : DIContainer) : DIContainer :=
  match r with
  | RegisterSingleton k v => register_singleton k v self
  | RegisterTransient k f => register_transient k f self
  | RegisterInstance k v => register_instance k v self
  end.

Definition register_all (rs : list registration) (self : DIContainer)
    : DIContainer :=
  fold_left (λ c r, register r c) rs self.

(** [is_instance_registration k r]: [r] is [register_instance(k, _)]. *)
Definition is_instance_registration (k : key) (r : registration) : bool :=
  match r with
  | RegisterInstance k' _ => bool_decide (k' = k)
  | _ => false
  end.

(** The program state in which the container is [c]. *)
Definition with_container (c : DIContainer) (st : pystate) : pystate :=
  mkState c (heap st) (calls st).

(** [n] calls of [m] in a row, with their outcomes. *)
Fixpoint repeat_call {A} (n : nat) (m : M A) (st : pystate)
    : list (outcome A) * pystate :=
  match n with
  | O => ([], st)
  | S n' =>
      let '(r, st') := m st in
      let '(rs, st'') := repeat_call n' m st' in
      (r :: rs, st'')
  end.

(** The resolution order in the words of the specification: the
    candidate steps in order, the first one that applies wins, and
    [otherwise] runs when none does. *)
Fixpoint first_match {A} (steps : list (option (M A))) (otherwise : M A)
    : M A :=
  match steps with
  | [] => otherwise
  | Some m :: _ => m
  | None :: steps' => first_match steps' otherwise
  end.

Definition resolution_steps (depth' : nat) (k : key) (st : pystate)
    : list (option (M value)) :=
  [ ret <$> _singletons (di st) !! k;
    ret <$> _services (di st) !! k;
    call_factory <$> _factories (di st) !! k;
    if isclass P k then Some (_auto_wire (get depth') k) else None ].

(** [k] has no entry in any of the three dictionaries. *)
Definition unregistered (c : DIContainer) (k : key) : Prop :=
  _singletons c !! k = None ∧ _services c !! k = None
  ∧ _factories c !! k = None.

(** The fixed value that [get] finds for [k] without calling anything. *)
Definition fixed_value (c : DIContainer) (k : key) : option value :=
  match _singletons c !! k with
  | Some v => Some v
  | None => _services c !! k
  end.

(** [p] is passed by the loop of [_auto_wire] and resolved as [t]. *)
Definition wired_as (p : param) (t : key) : Prop :=
  String.eqb (param_name p) "self" = false ∧ annotation p = Some t.

(** [depends t k]: auto-wiring the class [k] resolves [t]. *)
Definition depends (t k : key) : Prop :=
  isclass P k = true ∧ ∃ p, p ∈ parameters P k ∧ wired_as p t.

(** A parameter that the loop of [_auto_wire] gets through without
    calling user code when the container is [c]: it is skipped, or its
    type has a fixed value. *)
Definition quiet (c : DIContainer) (p : param) : Prop :=
  String.eqb (param_name p) "self" = true
  ∨ annotation p = None
  ∨ ∃ t, annotation p = Some t ∧ is_Some (fixed_value c t).

(** The keyword arguments that the loop of [_auto_wire] builds from
    fixed values alone. *)
Fixpoint fixed_kwargs (c : DIContainer) (ps : list param)
    : list (string * value) :=
  match ps with
  | [] => []
  | p :: ps' =>
      if String.eqb (param_name p) "self" then fixed_kwargs c ps'
      else match annotation p with
           | Some t =>
               match fixed_value c t with
               | Some v => (param_name p, v) :: fixed_kwargs c ps'
               | None => fixed_kwargs c ps'
               end
           | None => fixed_kwargs c ps'
           end
  end.

(** The user code that [get] can reach from the container [c], the
    registered factories and the constructors of classes, hands [c] back
    as it found it. *)
Definition preserves_container (c : DIContainer) : Prop :=
  (∀ k f w, _factories c !! k = Some f → (run_callable P f c w).1.2 = c)
  ∧ (∀ cls kwargs w,
       isclass P cls = true → (run_init P cls kwargs c w).1.2 = c).

(** User code that neither reads nor writes the container. *)
Definition ignores_container : Prop :=
  (∀ f c c' w,
      run_callable P f c w
      = ((run_callable P f c' w).1.1, c, (run_callable P f c' w).2))
  ∧ (∀ cls kwargs c c' w,
      run_init P cls kwargs c w
      = ((run_init P cls kwargs c' w).1.1, c, (run_init P cls kwargs c' w).2)).

(** Several keys resolved one after the other, with the outcome of each
    call. *)
Fixpoint get_each (depth : nat) (ks : list key) (st : pystate)
    : list (outcome value) * pystate :=
  match ks with
  | [] => ([], st)
  | k :: ks' =>
      let '(r, st') := get depth k st in
      let '(rs, st'') := get_each depth ks' st' in
      (r :: rs, st'')
  end.

(** Two containers in which [get] finds the same fixed values and the
    same factories. *)
Definition same_view (c1 c2 : DIContainer) : Prop :=
  (∀ k, fixed_value c1 k = fixed_value c2 k)
  ∧ _factories c1 = _factories c2.

(** [m] does the same with container [c2] as with [c1], and leaves the
    container in place. *)
Definition transfers {R} (c1 c2 : DIContainer) (m : pystate → R * pystate)
    : Prop :=
  ∀ w log,
    di (m (mkState c1 w log)).2 = c1
    ∧ m (mkState c2 w log)
      = ((m (mkState c1 w log)).1,
         with_container c2 (m (mkState c1 w log)).2).

(** [c1] and [c2] are what a container becomes when the fixed value [v]
    of [k] is registered as a singleton in the one and as an instance
    in the other, possibly followed by the same registrations in both:
    away from [k] the dictionaries agree; at [k] either a later
    singleton hides the difference, or [v] is the singleton of [c1] and
    the instance of [c2], which has no singleton for [k]. *)
Definition swapped_at (k : key) (v : value) (c1 c2 : DIContainer) : Prop :=
  _factories c1 = _factories c2
  ∧ (∀ k', k' ≠ k →
       _singletons c1 !! k' = _singletons c2 !! k'
       ∧ _services c1 !! k' = _services c2 !! k')
  ∧ ((_singletons c1 !! k = _singletons c2 !! k
      ∧ is_Some (_singletons c1 !! k))
     ∨ (_singletons c1 !! k = Some v ∧ _singletons c2 !! k = None
        ∧ _services c2 !! k = Some v)).

(** How many auto-wire failures wrap the root cause. *)
Fixpoint chain_length (e : exn) : nat :=
  match e with
  | ValueError (FailedToAutoWire _ cause) => S (chain_length cause)
  | _ => O
  end.

(** A set of classes without registration, each of which wires a
    parameter whose type is in the set again: every class on a cycle of
    auto-wired constructor parameters is in such a set, and so is every
    class that reaches one. *)
Definition self_dependent (c : DIContainer) (cyc : key → Prop) : Prop :=
  ∀ k, cyc k →
    unregistered c k ∧ ∃ t, depends t k ∧ cyc t.

(** The same, where moreover nothing that can fail or call user code
    comes before the parameter that closes the cycle. *)
Definition self_dependent_first (c : DIContainer) (cyc : key → Prop) : Prop :=
  ∀ k, cyc k →
    unregistered c k ∧ isclass P k = true
    ∧ ∃ pre p post t,
        parameters P k = pre ++ p :: post
        ∧ Forall (quiet c) pre ∧ wired_as p t ∧ cyc t.

(** From some depth on, the result of [get(k)] no longer depends on the
    depth that is left. *)
Definition settles (k : key) (n : nat) : Prop :=
  ∀ d (st : pystate), n ≤ d → get d k st = get n k st.

End Container.

Arguments exn key : clear implicits.
Arguments message key : clear implicits.
Arguments outcome key A : clear implicits.
Arguments param key : clear implicits.
Arguments DIContainer key {_ _} value callable.
Arguments call_event key value callable : clear implicits.
Arguments pystate key {_ _} value world callable.
Arguments M key {_ _} value world callable A.
Arguments program key {_ _} value world callable.
Arguments registration key value callable : clear implicits.
Arguments Return {key A} a.
Arguments Raise {key A} e.
Arguments __init__ {key _ _ value callable}.

(** ** A small program to run the container on *)

(** Objects: integers and instances of classes with their attributes. *)
#[warnings="-register-all"]
Inductive demo_value : Type :=
| VInt (n : nat)
| VObject (cls : string) (attrs : list (string * demo_value)).

(** Zero-argument callables that keep away from the container. *)
Inductive plain_callable : Type :=
| next_id      (* returns a counter kept in the program state, and bumps it *)
| broken.      (* raises RuntimeError *)

(** All callables of the program; the last three reach for the global
    container. *)
Inductive demo_callable : Type :=
| plain (f : plain_callable)
| peek         (* looks into the container: is "Database" a singleton? *)
| memoize      (* registers a "Session" as a singleton and returns it *)
| bootstrap.   (* registers a singleton for "Seeded" and returns 0 *)

Definition demo_isclass (k : string) : bool :=
  bool_decide (k ∈ ["Database"; "Service"; "Node"; "Ping"; "Pong"; "Late";
                    "Retry"; "Untyped"; "Fatal"; "Session"; "Seeded"]).

Definition self_param : param string := mkParam "self" None false.

(** The constructors.  "settings" and "seed" are annotations that are
    not classes. *)
Definition demo_parameters (k : string) : list (param string) :=
  if String.eqb k "Service" then [self_param; mkParam "db" (Some "Database") false]
  else if String.eqb k "Node" then [self_param; mkParam "next" (Some "Node") false]
  else if String.eqb k "Ping" then [self_param; mkParam "pong" (Some "Pong") false]
  else if String.eqb k "Pong" then [self_param; mkParam "ping" (Some "Ping") false]
  else if String.eqb k "Late" then
    [self_param; mkParam "settings" (Some "settings") false;
     mkParam "again" (Some "Late") false]
  else if String.eqb k "Retry" then [self_param; mkParam "attempts" None true]
  else if String.eqb k "Untyped" then [self_param; mkParam "x" None false]
  else if String.eqb k "Seeded" then
    [self_param; mkParam "seed" (Some "seed") false;
     mkParam "again" (Some "Seeded") false]
  else [self_param].

Definition run_plain (f : plain_callable) (w : nat)
    : outcome string demo_value * nat :=
  match f with
  | next_id => (Return (VInt w), S w)
  | broken => (Raise (OtherException "RuntimeError"), w)
  end.

Definition plain_run_callable (f : plain_callable)
    (c : DIContainer string demo_value plain_callable) (w : nat)
    : outcome string demo_value
      * DIContainer string demo_value plain_callable * nat :=
  ((run_plain f w).1, c, (run_plain f w).2).

Definition demo_run_callable (f : demo_callable)
    (c : DIContainer string demo_value demo_callable) (w : nat)
    : outcome string demo_value
      * DIContainer string demo_value demo_callable * nat :=
  match f with
  | plain f => ((run_plain f w).1, c, (run_plain f w).2)
  | peek =>
      (Return (VInt (if _singletons c !! "Database" is Some _ then 1 else 0)),
       c, w)
  | memoize =>
      (Return (VObject "Session" []),
       register_singleton "Session" (VObject "Session" []) c, w)
  | bootstrap =>
      (Return (VInt 0), register_singleton "Seeded" (VObject "Seeded" []) c, w)
  end.

(** Every constructor stores its arguments, except that of "Fatal",
    which exits the interpreter. *)
Definition demo_run_init {callable} (cls : string)
    (kwargs : list (string * demo_value))
    (c : DIContainer string demo_value callable) (w : nat)
    : outcome string demo_value * DIContainer string demo_value callable * nat :=
  if String.eqb cls "Fatal" then (Raise (NonException "SystemExit"), c, w)
  else (Return (VObject cls kwargs), c, w).

Definition demo : program string demo_value nat demo_callable :=
  mkProgram demo_isclass demo_parameters demo_run_callable demo_run_init.

(** The same classes, with the plain callables only. *)
Definition plain_demo : program string demo_value nat plain_callable :=
  mkProgram demo_isclass demo_parameters plain_run_callable demo_run_init.

(** The state of the program with container [c], counter 0 and no call made. *)
Definition boot {callable} (c : DIContainer string demo_value callable)
    : pystate string demo_value nat callable :=
  mkState c 0 [].

Definition db : demo_value := VObject "Database" [("dsn", VInt 7)].

(** ** More vocabulary *)

Section MoreVocabulary.

Context {key : Type} `{Countable key} {value callable : Type}.

(** The test of the loop of [_auto_wire], as a boolean: [p] is not the
    receiver and has an annotation. *)
Definition is_wired (p : param key) : bool :=
  negb (String.eqb (param_name p) "self")
  && match annotation p with Some _ => true | None => false end.

(** Which of the three dictionaries a registration writes to. *)
Inductive variant : Type := SingletonVariant | TransientVariant | InstanceVariant.

Definition registration_variant (r : registration key value callable)
    : variant :=
  match r with
  | RegisterSingleton _ _ => SingletonVariant
  | RegisterTransient _ _ => TransientVariant
  | RegisterInstance _ _ => InstanceVariant
  end.

(** The factories registered for the types of the wired parameters, one
    entry per parameter, in the order of the signature. *)
Definition wired_factories (c : DIContainer key value callable)
    (ps : list (param key)) : list callable :=
  omap (λ p, if is_wired p
             then match annotation p with
                  | Some t => _factories c !! t
                  | None => None
                  end
             else None) ps.

(** The factories called, in order, according to a log. *)
Definition invocations (log : list (call_event key value callable))
    : list callable :=
  omap (λ ev, match ev with
              | Invoked f => Some f
              | Constructed _ _ => None
              end) log.

End MoreVocabulary.

(** ** The rest of the module: the global container and its decorators *)

Section Globals.

Context {key : Type} `{Countable key} {value world user_callable : Type}.

(** What [register_transient] may be given in this module: a callable of
    the program, or the lambda that [injectable] builds for a class,
    [lambda: _container._auto_wire(cls)]. *)
Inductive factory_object : Type :=
| UserCallable (f : user_callable)
| AutoWireLambda (cls : key).

(** The program; its [run_callable] is asked about [UserCallable]s only. *)
Variable P : program key value world factory_object.

(** [get] on the global container [_container], which is the [di] of the
    program state: as [get] above, with the call of a registered lambda
    carried out.  The lambda belongs to the module, so that its call is
    not entered in the log of calls into user code.  Its call is a frame
    of its own between [get] and [_auto_wire], and takes one from
    [depth]; with none left it fails in [get], outside any [try]. *)
Fixpoint container_get (depth : nat) (interface : key)
    : M key value world factory_object value :=
  match depth with
  | O => raise RecursionError
  | S depth' =>
      λ st,
        match _singletons (di st) !! interface with
        | Some v => (Return v, st)
        | None =>
            match _services (di st) !! interface with
            | Some v => (Return v, st)
            | None =>
                match _factories (di st) !! interface with
                | Some (UserCallable f) => call_factory P (UserCallable f) st
                | Some (AutoWireLambda cls) =>
                    match depth' with
                    | O => raise RecursionError st
                    | S depth'' =>
                        _auto_wire P (container_get depth'') cls st
                    end
                | None =>
                    if isclass P interface
                    then _auto_wire P (container_get depth') interface st
                    else raise (ValueError (NoRegistrationFound interface)) st
                end
            end
        end
  end.

(** [get_container()] *)
Definition get_container (st : pystate key value world factory_object)
    : DIContainer key value factory_object
      * pystate key value world factory_object :=
  (di st, st).

(** [inject(interface)] returns the closure [dependency]; this is what a
    call of that closure does, the call being a frame of its own. *)
Definition inject (interface : key) (depth : nat)
    : M key value world factory_object value :=
  match depth with
  | O => raise RecursionError
  | S depth' => container_get depth' interface
  end.

(** [injectable(cls)]: registers the lambda and returns [cls]. *)
Definition injectable (cls : key) (st : pystate key value world factory_object)
    : key * pystate key value world factory_object :=
  (cls, with_container
          (register_transient cls (AutoWireLambda cls) (di st)) st).

(** Whenever [ma] returns with container [ca], [mb] returns the same
    with container [cb], with the same effects on the rest of the state,
    the containers staying in place. *)
Definition returns_alike {R}
    (ca cb : DIContainer key value factory_object)
    (ma mb : pystate key value world factory_object
             → outcome key R * pystate key value world factory_object)
    : Prop :=
  ∀ w log v st',
    ma (mkState ca w log) = (Return v, st') →
    di st' = ca ∧ mb (mkState cb w log) = (Return v, with_container cb st').

End Globals.

Arguments factory_object key user_callable : clear implicits.
Arguments UserCallable {key user_callable} f.
Arguments AutoWireLambda {key user_callable} cls.

(** The small program again, for the global container. *)
Definition global_demo
    : program string demo_value nat (factory_object string plain_callable) :=
  mkProgram demo_isclass demo_parameters
    (λ f c w,
       match f with
       | UserCallable g => ((run_plain g w).1, c, (run_plain g w).2)
       | AutoWireLambda _ => (Raise (OtherException "NotImplementedError"), c, w)
       end)
    demo_run_init.

(** A program with one class, whose constructor takes two parameters of
    the same type. *)
Definition pair_demo : program string demo_value nat plain_callable :=
  mkProgram (λ k, String.eqb k "Pair")
    (λ k, if String.eqb k "Pair"
          then [self_param; mkParam "left" (Some "id") false;
                mkParam "right" (Some "id") false]
          else [self_param])
    plain_run_callable demo_run_init.

(** A program whose classes take a "Database" beside other things. *)
Inductive handler_callable : Type :=
| fresh_id          (* returns the counter of the program state, and bumps it *)
| rebind_database.  (* registers another "Database" singleton, returns 0 *)

Definition spare_db : demo_value := VObject "Database" [("dsn", VInt 8)].

Definition handler_parameters (k : string) : list (param string) :=
  if String.eqb k "Handler" then
    [self_param; mkParam "db" (Some "Database") false;
     mkParam "logger" (Some "Logger") false]
  else if String.eqb k "Job" then
    [self_param; mkParam "id" (Some "IdT") false;
     mkParam "db" (Some "Database") false]
  else if String.eqb k "Strict" then
    [self_param;
     mkParamOfKind "db" (Some "Database") false POSITIONAL_ONLY]
  else if String.eqb k "Report" then
    [self_param; mkParam "db" (Some "Database") false;
     mkParam "layout" (Some "layout") false]
  else if String.eqb k "Audit" then
    [self_param; mkParam "stamp" (Some "stamp") false;
     mkParam "db" (Some "Database") false]
  else [self_param].

Definition handler_demo : program string demo_value nat handler_callable :=
  mkProgram
    (λ k, bool_decide (k ∈ ["Handler"; "Job"; "Strict"; "Report"; "Audit";
                            "Logger"; "Database"]))
    handler_parameters
    (λ f c w,
       match f with
       | fresh_id => (Return (VInt w), c, S w)
       | rebind_database =>
           (Return (VInt 0), register_singleton "Database" spare_db c, w)
       end)
    demo_run_init.

(** * The response helpers ([fastapi_toolkit/response.py]) *)

Module Response.

(** The JSON-like values that the helpers put into [data] and [meta]. *)
#[warnings="-register-all"]
Inductive pyobj : Type :=
| PyNone
| PyBool (b : bool)
| PyInt (z : Z)
| PyStr (s : string)
| PyList (l : list pyobj)
| PyDict (d : list (string * pyobj)).

(** [d.get(k)] on a dict literal. *)
Fixpoint dict_get (k : string) (d : list (string * pyobj)) : option pyobj :=
  match d with
  | [] => None
  | (k', v) :: d' => if String.eqb k k' then Some v else dict_get k d'
  end.

(** The fields of [BaseResponse]; [timestamp] is a reading of the clock. *)
Record BaseResponse : Type := mkResponse {
  success : bool;
  message : string;
  timestamp : Z;
  data : pyobj;
  errors : option (list string);
  meta : option (list (string * pyobj))
}.

(** [BaseResponse.__init__] without a [timestamp] among the keyword
    arguments: it takes [datetime.utcnow()], here [now]. *)
Definition BaseResponse_init (now : Z) (success : bool) (message : string)
    (data : pyobj) (errors : option (list string))
    (meta : option (list (string * pyobj))) : BaseResponse :=
  mkResponse success message now data errors meta.

Definition SuccessResponse_init (now : Z) (data : pyobj) (message : string)
    (meta : option (list (string * pyobj))) : BaseResponse :=
  BaseResponse_init now true message data None meta.

(** [errors or []] *)
Definition ErrorResponse_init (now : Z) (message : string)
    (errors : option (list string)) (data : pyobj)
    (meta : option (list (string * pyobj))) : BaseResponse :=
  BaseResponse_init now false message data
    (Some (match errors with
           | Some (e :: es) => e :: es
           | Some [] | None => []
           end))
    meta.

(** [(total + per_page - 1) // per_page if total > 0 else 0]; [None]
    stands for [ZeroDivisionError]. *)
Definition total_pages (total per_page : Z) : option Z :=
  if (0 <? total)%Z
  then if (per_page =? 0)%Z then None
       else Some ((total + per_page - 1) / per_page)%Z
  else Some 0%Z.

(** [PaginatedResponse.__init__] *)
Definition PaginatedResponse_init (now : Z) (data : list pyobj)
    (page per_page total : Z) (message : string) : option BaseResponse :=
  match total_pages total per_page with
  | None => None
  | Some pages =>
      let meta :=
        [("pagination",
          PyDict [("page", PyInt page);
                  ("per_page", PyInt per_page);
                  ("total", PyInt total);
                  ("total_pages", PyInt pages);
                  ("has_next", PyBool (page <? pages)%Z);
                  ("has_prev", PyBool (1 <? page)%Z)])] in
      Some (SuccessResponse_init now (PyList data) message (Some meta))
  end.

Definition paginated (now : Z) (data : list pyobj) (page per_page total : Z)
    (message : string) : option BaseResponse :=
  PaginatedResponse_init now data page per_page total message.

(** What a client reads under [meta["pagination"][name]]. *)
Definition pagination_field (r : BaseResponse) (name : string)
    : option pyobj :=
  match meta r with
  | Some m =>
      match dict_get "pagination" m with
      | Some (PyDict d) => dict_get name d
      | _ => None
      end
  | None => None
  end.

(** The two loops of [ValidationErrorResponse.__init__]. *)
Definition collect_errors (validation_errors : list (string * list string))
    : list string :=
  fold_left
    (λ errors '(field, field_errors),
       fold_left (λ errors error, errors ++ [(field ++ ": " ++ error)%string])
                 field_errors errors)
    validation_errors [].

Definition ValidationErrorResponse_init (now : Z)
    (validation_errors : list (string * list string)) (message : string)
    : BaseResponse :=
  ErrorResponse_init now message
    (Some (collect_errors validation_errors))
    (PyDict [("validation_errors",
              PyDict (map (λ '(field, field_errors),
                             (field, PyList (map PyStr field_errors)))
                          validation_errors))])
    None.

Definition validation_error (now : Z)
    (validation_errors : list (string * list string)) (message : string)
    : BaseResponse :=
  ValidationErrorResponse_init now validation_errors message.

End Response.

(** * The cache key of [cache_result] ([fastapi_toolkit/cache.py]) *)

Section CacheKey.

(** The arguments of the decorated function, and Python's [str] on them. *)
Context {value : Type} (str : value → string).

(** The order of [sorted(kwargs.items())]: by key, the keys of a call
    being distinct. *)
Definition by_key : relation (string * value) :=
  λ x y, String.le x.1 y.1.

Definition cache_key (key_prefix func_name : string) (args : list value)
    (kwargs : list (string * value)) : string :=
  let key_parts := [key_prefix; func_name] in
  let key_parts :=
    match args with
    | [] => key_parts
    | _ => key_parts ++ map str args
    end in
  let key_parts :=
    match kwargs with
    | [] => key_parts
    | _ => key_parts
           ++ map (λ kv, kv.1 ++ "=" ++ str kv.2)%string
                  (merge_sort by_key kwargs)
    end in
  String.concat ":" (List.filter (λ s, negb (String.eqb s "")) key_parts).

End CacheKey.

(** * Properties of the container *)

Section Resolution.

Context {key : Type} `{Countable key} {value world callable : Type}.
Variable P : program key value world callable.

Local Abbreviation state := (pystate key value world callable).
Local Abbreviation container := (DIContainer key value callable).

(** Case analysis on the two dictionaries of fixed values that [get]
    looks into first; the cases where an entry is found are closed. *)
Ltac case_fixed st k :=
  destruct (_singletons (di st) !! k); [done|];
  destruct (_services (di st) !! k); [done|].

(** ** One step of [get], case by case *)

Lemma get_singleton d k (st : state) v :
  _singletons (di st) !! k = Some v → get P (S d) k st = (Return v, st).
Proof. intros Hs. simpl. by rewrite Hs. Qed.

Lemma get_instance d k (st : state) v :
  _singletons (di st) !! k = None → _services (di st) !! k = Some v →
  get P (S d) k st = (Return v, st).
Proof. intros Hs Hi. simpl. by rewrite Hs, Hi. Qed.

Lemma get_fixed_value d k (st : state) v :
  fixed_value (di st) k = Some v → get P (S d) k st = (Return v, st).
Proof.
  unfold fixed_value. intros Hv.
  destruct (_singletons (di st) !! k) as [s|] eqn:Hs.
  - inversion Hv; subst. by apply get_singleton.
  - by apply get_instance.
Qed.

Lemma get_factory d k (st : state) f :
  _singletons (di st) !! k = None → _services (di st) !! k = None →
  _factories (di st) !! k = Some f →
  get P (S d) k st = call_factory P f st.
Proof. intros Hs Hi Hf. simpl. by rewrite Hs, Hi, Hf. Qed.

Lemma get_auto_wire d k (st : state) :
  unregistered (di st) k → isclass P k = true →
  get P (S d) k st = _auto_wire P (get P d) k st.
Proof. intros (Hs & Hi & Hf) Hc. simpl. by rewrite Hs, Hi, Hf, Hc. Qed.

Lemma get_unresolved d k (st : state) :
  unregistered (di st) k → isclass P k = false →
  get P (S d) k st = (Raise (UnresolvedDependency k), st).
Proof. intros (Hs & Hi & Hf) Hc. simpl. by rewrite Hs, Hi, Hf, Hc. Qed.

(** ** Registrations *)

Lemma register_all_cons r rs (c : container) :
  register_all (r :: rs) c = register_all rs (register r c).
Proof. reflexivity. Qed.

Lemma register_all_app rs rs' (c : container) :
  register_all (rs ++ rs') c = register_all rs' (register_all rs c).
Proof. unfold register_all. apply fold_left_app. Qed.

Lemma register_singletons_other k r (c : container) :
  registration_key r ≠ k →
  _singletons (register r c) !! k = _singletons c !! k.
Proof.
  destruct r; simpl; intros Hk; [|done..].
  by rewrite lookup_insert_ne.
Qed.

Lemma register_all_singletons_other k rs (c : container) :
  Forall (λ r, registration_key r ≠ k) rs →
  _singletons (register_all rs c) !! k = _singletons c !! k.
Proof.
  intros Hrs. revert c.
  induction Hrs as [|r rs Hr _ IH]; intros c; [done|].
  rewrite register_all_cons, IH. by apply register_singletons_other.
Qed.

Lemma repeat_call_fixed {A} n (m : M key value world callable A) (st : state) r :
  m st = (r, st) → repeat_call n m st = (repeat r n, st).
Proof.
  intros Hm. induction n as [|n IH]; [done|].
  simpl. by rewrite Hm, IH.
Qed.

(** ** The loop that builds the keyword arguments *)

Lemma build_kwargs_app g pre post kwargs (st : state) :
  build_kwargs g (pre ++ post) kwargs st
  = bind (build_kwargs g pre kwargs) (build_kwargs g post) st.
Proof.
  unfold bind. revert kwargs st.
  induction pre as [|p pre IH]; intros kwargs st; simpl.
  - done.
  - destruct (String.eqb (param_name p) "self"); [apply IH|].
    destruct (annotation p) as [t|]; [|apply IH].
    unfold bind. destruct (g t st) as [[v|e] st']; [|done].
    apply IH.
Qed.

(** The loop only looks at [get] on the types it wires. *)
Lemma build_kwargs_ext g g' ps kwargs (st : state) :
  (∀ p t, p ∈ ps → wired_as p t → ∀ st', g t st' = g' t st') →
  build_kwargs g ps kwargs st = build_kwargs g' ps kwargs st.
Proof.
  revert kwargs st. induction ps as [|p ps IH]; intros kwargs st Hg; [done|].
  simpl. destruct (String.eqb (param_name p) "self") eqn:Hself.
  { apply IH. intros q t Hq. apply Hg. by right. }
  destruct (annotation p) as [t|] eqn:Ht.
  - unfold bind. rewrite <- (Hg p t); [|by left|done].
    destruct (g t st) as [[v|e] st']; [|done].
    apply IH. intros q u Hq. apply Hg. by right.
  - apply IH. intros q t Hq. apply Hg. by right.
Qed.

(** Every keyword the loop adds is the name of a wired parameter. *)
Lemma build_kwargs_names g ps kwargs (st : state) kwargs' st' x :
  build_kwargs g ps kwargs st = (Return kwargs', st') →
  x ∈ map fst kwargs' →
  x ∈ map fst kwargs ∨ ∃ p t, p ∈ ps ∧ wired_as p t ∧ param_name p = x.
Proof.
  revert kwargs st. induction ps as [|p ps IH]; intros kwargs st; simpl.
  - unfold ret. intros [= <- <-]. by left.
  - destruct (String.eqb (param_name p) "self") eqn:Hself.
    { intros Hb Hx. destruct (IH _ _ Hb Hx) as [?|(q & t & Hq & ?)]; [by left|].
      right. exists q, t. split; [by right|done]. }
    destruct (annotation p) as [t|] eqn:Ht.
    + unfold bind. destruct (g t st) as [[v|e] st1]; [|done].
      intros Hb Hx. destruct (IH _ _ Hb Hx) as [Hin|(q & u & Hq & ?)].
      * rewrite map_app, elem_of_app in Hin. destruct Hin as [?|Hin]; [by left|].
        right. exists p, t. simpl in Hin. apply list_elem_of_singleton in Hin.
        split; [by left|]. by split.
      * right. exists q, u. split; [by right|done].
    + intros Hb Hx. destruct (IH _ _ Hb Hx) as [?|(q & t & Hq & ?)]; [by left|].
      right. exists q, t. split; [by right|done].
Qed.

(** Quiet parameters are passed over without any effect, once there is
    room for one more frame. *)
Lemma build_kwargs_quiet d ps kwargs (st : state) :
  Forall (quiet (di st)) ps →
  build_kwargs (get P (S d)) ps kwargs st
  = (Return (kwargs ++ fixed_kwargs (di st) ps), st).
Proof.
  intros Hq. revert kwargs.
  induction Hq as [|p ps Hp _ IH]; intros kwargs;
    cbn [build_kwargs fixed_kwargs].
  - by rewrite app_nil_r.
  - destruct (String.eqb (param_name p) "self") eqn:Hself; [apply IH|].
    destruct Hp as [Hp|[Hp|(t & Hp & [v Hv])]].
    + congruence.
    + rewrite Hp. apply IH.
    + rewrite Hp, Hv. unfold bind.
      rewrite (get_fixed_value d t st v Hv), IH, <- app_assoc. done.
Qed.

Lemma fixed_kwargs_elem (c : container) ps p t v :
  p ∈ ps → wired_as p t → fixed_value c t = Some v →
  (param_name p, v) ∈ fixed_kwargs c ps.
Proof.
  intros Hp [Hself Hann] Hv. induction ps as [|q ps IH]; simpl.
  { by apply elem_of_nil in Hp. }
  apply elem_of_cons in Hp as [<-|Hp].
  - rewrite Hself, Hann, Hv. by left.
  - destruct (String.eqb (param_name q) "self"); [by apply IH|].
    destruct (annotation q) as [u|]; [|by apply IH].
    destruct (fixed_value c u); [right|]; by apply IH.
Qed.

(** ** User code that leaves the container alone *)

Lemma call_factory_di k f (st : state) :
  preserves_container P (di st) → _factories (di st) !! k = Some f →
  di (call_factory P f st).2 = di st.
Proof.
  intros [Hf _] Hk. unfold call_factory.
  specialize (Hf k f (heap st) Hk).
  by destruct (run_callable P f (di st) (heap st)) as [[r c] w].
Qed.

Lemma call_class_di cls kwargs (st : state) :
  preserves_container P (di st) → isclass P cls = true →
  di (call_class P cls kwargs st).2 = di st.
Proof.
  intros [_ Hi] Hcls. unfold call_class.
  destruct (unbound_names _ _); [|done].
  specialize (Hi cls kwargs (heap st) Hcls).
  by destruct (run_init P cls kwargs (di st) (heap st)) as [[r c] w].
Qed.

Lemma build_kwargs_di (c : container) g ps kwargs (st : state) :
  (∀ t st', di st' = c → di (g t st').2 = c) →
  di st = c → di (build_kwargs g ps kwargs st).2 = c.
Proof.
  intros Hg. revert kwargs st.
  induction ps as [|p ps IH]; intros kwargs st Hst; simpl; [done|].
  destruct (String.eqb (param_name p) "self"); [by apply IH|].
  destruct (annotation p) as [t|]; [|by apply IH].
  unfold bind. specialize (Hg t st Hst).
  destruct (g t st) as [[v|e] st1]; simpl in *; [|done].
  by apply IH.
Qed.

Lemma auto_wire_di (c : container) g cls (st : state) :
  preserves_container P c → isclass P cls = true →
  (∀ t st', di st' = c → di (g t st').2 = c) →
  di st = c → di (_auto_wire P g cls st).2 = c.
Proof.
  intros HP Hcls Hg Hst. unfold _auto_wire, try_except, bind.
  pose proof (build_kwargs_di c g (parameters P cls) [] st Hg Hst) as Hb.
  destruct (build_kwargs g (parameters P cls) [] st) as [[kw|e] st1];
    simpl in Hb.
  - subst c. rewrite <- Hb in HP.
    pose proof (call_class_di cls kw st1 HP Hcls) as Hc.
    destruct (call_class P cls kw st1) as [[v|e] st2]; simpl in *.
    + congruence.
    + destruct (is_Exception e); simpl; congruence.
  - by destruct (is_Exception e).
Qed.

Lemma get_di (c : container) d k (st : state) :
  preserves_container P c → di st = c → di (get P d k st).2 = c.
Proof.
  intros HP. revert k st.
  induction d as [|d IH]; intros k st Hst; [done|].
  simpl.
  case_fixed st k.
  destruct (_factories (di st) !! k) as [f|] eqn:Hf.
  { subst c. by rewrite (call_factory_di k). }
  destruct (isclass P k) eqn:Hcls; [|done].
  by apply auto_wire_di.
Qed.

(** C1. [get] goes through the candidate steps in the order singleton
    dictionary, instance dictionary, factory dictionary (the factory is
    called and its result returned as it is), auto-wiring when the key
    is a class; the first step that applies is the one taken, and when
    none applies the call fails with [UnresolvedDependency]. *)
Theorem get_resolution_order d k (st : state) :
  get P (S d) k st
  = first_match (resolution_steps P d k st)
                (raise (UnresolvedDependency k)) st.
Proof.
  unfold resolution_steps. simpl.
  case_fixed st k.
  destruct (_factories (di st) !! k); [done|].
  by destruct (isclass P k).
Qed.

(** C4. After [register_singleton(K, V)], and after any further
    registrations under other keys, every call of [get(K)] returns
    exactly [V], however many calls are made, and changes nothing. *)
Theorem singleton_returned_on_every_call K V rs (st : state) n d :
  Forall (λ r, registration_key r ≠ K) rs →
  let st' := with_container
               (register_all rs (register_singleton K V (di st))) st in
  repeat_call n (get P (S d) K) st' = (repeat (Return V) n, st').
Proof.
  intros Hrs st'. apply repeat_call_fixed, get_singleton.
  subst st'. simpl. rewrite register_all_singletons_other by done.
  simpl. apply lookup_insert_eq.
Qed.

(** C8. A key with no entry in any dictionary that is not a class makes
    [get] raise [UnresolvedDependency] carrying that key; the failure
    reaches the caller at once: no user code has been called and the
    program state is the one [get] was called in. *)
Theorem unresolved_dependency_raised d k (st : state) :
  unregistered (di st) k → isclass P k = false →
  get P (S d) k st = (Raise (UnresolvedDependency k), st).
Proof. apply get_unresolved. Qed.

(** C2 (amended). Each dictionary holds one entry per key and a
    registration overwrites the entry of the same variant only; entries
    of different variants live side by side, and [get] reflects the
    latest registration of the first variant, in the order singleton,
    instance, factory, that the key has an entry for. *)
Theorem last_write_wins_within_variant k a b f g (c : container) :
  register_singleton k b (register_singleton k a c) = register_singleton k b c
  ∧ register_instance k b (register_instance k a c) = register_instance k b c
  ∧ register_transient k g (register_transient k f c) = register_transient k g c
  ∧ (∀ d (st : state),
        let st' := with_container (register_singleton k b (di st)) st in
        get P (S d) k st' = (Return b, st'))
  ∧ (∀ d (st : state),
        let st' := with_container (register_instance k b (di st)) st in
        get P (S d) k st'
        = (Return (default b (_singletons (di st) !! k)), st'))
  ∧ (∀ d (st : state),
        let st' := with_container (register_transient k g (di st)) st in
        get P (S d) k st'
        = match fixed_value (di st) k with
          | Some v => (Return v, st')
          | None => call_factory P g st'
          end).
Proof.
  repeat split.
  - unfold register_singleton; simpl. by rewrite insert_insert_eq.
  - unfold register_instance; simpl. by rewrite insert_insert_eq.
  - unfold register_transient; simpl. by rewrite insert_insert_eq.
  - intros d st st'. apply get_singleton. simpl. apply lookup_insert_eq.
  - intros d st st'.
    destruct (_singletons (di st) !! k) as [s|] eqn:Hs.
    + by apply get_singleton.
    + apply get_instance; simpl; [done|apply lookup_insert_eq].
  - intros d st st'. unfold fixed_value.
    destruct (_singletons (di st) !! k) as [s|] eqn:Hs.
    + by apply get_singleton.
    + destruct (_services (di st) !! k) as [i|] eqn:Hi.
      * by apply get_instance.
      * apply get_factory; simpl; [done|done|apply lookup_insert_eq].
Qed.

(** C10. As long as the factories and constructors that [get] runs do
    not change the container themselves, a call of [get] leaves the three
    dictionaries as they were, whether it returns or raises: nothing a
    factory or the auto-wiring produced is stored. *)
Theorem get_leaves_container_unchanged d k (st : state) :
  preserves_container P (di st) →
  di (get P d k st).2 = di st
  ∧ _singletons (di (get P d k st).2) = _singletons (di st)
  ∧ _services (di (get P d k st).2) = _services (di st)
  ∧ _factories (di (get P d k st).2) = _factories (di st).
Proof.
  intros HP. by rewrite (get_di (di st) d k st HP eq_refl).
Qed.

Lemma call_factory_calls f (st : state) :
  calls (call_factory P f st).2 = calls st ++ [Invoked f].
Proof.
  unfold call_factory.
  by destruct (run_callable P f (di st) (heap st)) as [[r c] w].
Qed.

Lemma repeat_call_factory n K F d (st : state) :
  (∀ c w, (run_callable P F c w).1.2 = c) →
  fixed_value (di st) K = None → _factories (di st) !! K = Some F →
  repeat_call n (get P (S d) K) st = repeat_call n (call_factory P F) st
  ∧ calls (repeat_call n (get P (S d) K) st).2
    = calls st ++ repeat (Invoked F) n.
Proof.
  intros HF. revert st. induction n as [|n IH]; intros st Hfix Hfac.
  { simpl. by rewrite app_nil_r. }
  assert (Hget : get P (S d) K st = call_factory P F st).
  { unfold fixed_value in Hfix.
    destruct (_singletons (di st) !! K) eqn:Hs; [done|].
    by apply get_factory. }
  cbn [repeat_call]. rewrite Hget.
  pose proof (call_factory_calls F st) as Hcalls.
  assert (Hdi : di (call_factory P F st).2 = di st).
  { unfold call_factory. specialize (HF (di st) (heap st)).
    by destruct (run_callable P F (di st) (heap st)) as [[r c] w]. }
  destruct (call_factory P F st) as [r st1]. simpl in Hcalls, Hdi.
  destruct (IH st1) as [IH1 IH2]; [by rewrite Hdi..|].
  rewrite IH1 in *.
  destruct (repeat_call n (call_factory P F) st1) as [rs st2].
  split; [done|]. simpl in *.
  rewrite IH2, Hcalls, <- app_assoc. done.
Qed.

(** C5 (amended). When [K] has a factory [F] and no entry in the
    singleton and instance dictionaries, a call of [get(K)] is one call
    of [F]: its outcome and its effects are those of [F()], and the
    call log grows by exactly that one call.  If [F] does not change the
    container, [n] calls of [get(K)] are [n] calls of [F]. *)
Theorem transient_calls_factory_each_time K F d (st : state) :
  fixed_value (di st) K = None → _factories (di st) !! K = Some F →
  get P (S d) K st = call_factory P F st
  ∧ calls (get P (S d) K st).2 = calls st ++ [Invoked F]
  ∧ ((∀ c w, (run_callable P F c w).1.2 = c) →
     ∀ n, repeat_call n (get P (S d) K) st
          = repeat_call n (call_factory P F) st
          ∧ calls (repeat_call n (get P (S d) K) st).2
            = calls st ++ repeat (Invoked F) n).
Proof.
  intros Hfix Hfac.
  assert (Hget : get P (S d) K st = call_factory P F st).
  { unfold fixed_value in Hfix.
    destruct (_singletons (di st) !! K) eqn:Hs; [done|].
    by apply get_factory. }
  split; [done|]. split.
  - rewrite Hget. apply call_factory_calls.
  - intros HF n. by apply repeat_call_factory.
Qed.

Lemma build_kwargs_extends g ps kwargs (st : state) kwargs' st' :
  build_kwargs g ps kwargs st = (Return kwargs', st') →
  ∃ more, kwargs' = kwargs ++ more.
Proof.
  revert kwargs st. induction ps as [|p ps IH]; intros kwargs st;
    cbn [build_kwargs].
  - unfold ret. intros [= <- <-]. exists []. by rewrite app_nil_r.
  - destruct (String.eqb (param_name p) "self"); [apply IH|].
    destruct (annotation p) as [t|]; [|apply IH].
    unfold bind. destruct (g t st) as [[v|e] st1]; [|done].
    intros Hb. destruct (IH _ _ Hb) as [more ->].
    eexists. by rewrite <- app_assoc.
Qed.

(** C6 (amended). Let [T] be a class with no registration, one of whose
    constructor parameters, [q], is annotated with [U], and let [u] be
    the singleton registered for [U].  If the parameters before [q]
    resolve and leave the container as it was, the parameters after [q]
    resolve, and the call of the constructor with the keyword arguments
    so built returns, then [get(T)] returns the instance that this call
    builds, and [u] is what the call is given for [q].  The other
    parameters may be resolved in any way: from stored values, through
    factories or by further auto-wiring. *)
Theorem auto_wire_passes_singleton T U u pre q post d
    (st st1 st2 st3 : state) kw1 kwargs obj :
  unregistered (di st) T → isclass P T = true →
  parameters P T = pre ++ q :: post →
  wired_as q U →
  _singletons (di st) !! U = Some u →
  build_kwargs (get P (S d)) pre [] st = (Return kw1, st1) →
  di st1 = di st →
  build_kwargs (get P (S d)) post (kw1 ++ [(param_name q, u)]) st1
  = (Return kwargs, st2) →
  call_class P T kwargs st2 = (Return obj, st3) →
  get P (S (S d)) T st = (Return obj, st3)
  ∧ (param_name q, u) ∈ kwargs
  ∧ calls st3 = calls st2 ++ [Constructed T kwargs].
Proof.
  intros HT Hcls Hps [Hself Hann] HU Hpre Hdi Hpost Hcall.
  split; [|split].
  - rewrite get_auto_wire by done.
    unfold _auto_wire, try_except, bind.
    rewrite Hps, build_kwargs_app. unfold bind. rewrite Hpre.
    cbn [build_kwargs]. rewrite Hself, Hann. unfold bind.
    rewrite (get_singleton d U st1 u) by (by rewrite Hdi).
    by rewrite Hpost, Hcall.
  - destruct (build_kwargs_extends _ _ _ _ _ _ Hpost) as [more ->].
    rewrite !elem_of_app. left. right. by left.
  - revert Hcall. unfold call_class.
    destruct (unbound_names _ _); [|done].
    destruct (run_init P T kwargs (di st2) (heap st2)) as [[r c] w].
    by intros [= _ <-].
Qed.

(** ** Failures of the auto-wiring *)

Lemma auto_wire_kwargs_raise g cls (st : state) e st1 :
  build_kwargs g (parameters P cls) [] st = (Raise e, st1) →
  is_Exception e = true →
  _auto_wire P g cls st = (Raise (AutoWireFailure cls e), st1).
Proof.
  intros Hb He. unfold _auto_wire, try_except, bind. by rewrite Hb, He.
Qed.

Lemma auto_wire_call_raise g cls (st : state) kw st1 e st2 :
  build_kwargs g (parameters P cls) [] st = (Return kw, st1) →
  call_class P cls kw st1 = (Raise e, st2) →
  is_Exception e = true →
  _auto_wire P g cls st = (Raise (AutoWireFailure cls e), st2).
Proof.
  intros Hb Hc He. unfold _auto_wire, try_except, bind.
  by rewrite Hb, Hc, He.
Qed.

Lemma param_name_inj (ps : list (param key)) p q :
  NoDup (map param_name ps) → p ∈ ps → q ∈ ps →
  param_name p = param_name q → p = q.
Proof.
  induction ps as [|r ps IH]; simpl; intros Hnd Hp Hq Hpq.
  { by apply elem_of_nil in Hp. }
  apply NoDup_cons in Hnd as [Hr Hnd].
  apply elem_of_cons in Hp as [->|Hp]; apply elem_of_cons in Hq as [->|Hq].
  - done.
  - destruct Hr. rewrite Hpq. by apply (list_elem_of_fmap_2 param_name).
  - destruct Hr. rewrite <- Hpq. by apply (list_elem_of_fmap_2 param_name).
  - by apply IH.
Qed.

Lemma missing_required_unannotated g ps (st : state) kw st1 p :
  NoDup (map param_name ps) → p ∈ ps →
  String.eqb (param_name p) "self" = false →
  annotation p = None → has_default p = false →
  build_kwargs g ps [] st = (Return kw, st1) →
  param_name p ∈ missing_required ps kw.
Proof.
  intros Hnd Hp Hself Hann Hdef Hb.
  unfold missing_required.
  apply (list_elem_of_fmap_2 param_name), list_elem_of_In, filter_In.
  split; [by apply list_elem_of_In|].
  rewrite Hself, Hdef. simpl. unfold bound_by_keyword.
  apply negb_true_iff, andb_false_iff. right.
  apply bool_decide_eq_false_2. intros Hin.
  destruct (build_kwargs_names _ _ _ _ _ _ _ Hb Hin)
    as [Hnil|(q & t & Hq & [_ Hqt] & Hname)].
  { by apply elem_of_nil in Hnil. }
  assert (q = p) as -> by (by apply (param_name_inj ps)).
  congruence.
Qed.

(** C7 (amended). When [get] auto-wires a class [T] that has no
    registration, it raises [AutoWireFailure] carrying the cause
    whenever the resolution of a parameter type raises an exception of
    class [Exception], whenever the constructor call raises one, and in
    particular whenever a parameter with neither an annotation nor a
    default value is left for the constructor call to miss. *)
Theorem auto_wire_failure_wraps_exception T d (st : state) :
  unregistered (di st) T → isclass P T = true →
  (∀ pre p post t kw st1 e st2,
      parameters P T = pre ++ p :: post →
      build_kwargs (get P d) pre [] st = (Return kw, st1) →
      wired_as p t →
      get P d t st1 = (Raise e, st2) → is_Exception e = true →
      get P (S d) T st = (Raise (AutoWireFailure T e), st2))
  ∧ (∀ kw st1 e st2,
      build_kwargs (get P d) (parameters P T) [] st = (Return kw, st1) →
      call_class P T kw st1 = (Raise e, st2) → is_Exception e = true →
      get P (S d) T st = (Raise (AutoWireFailure T e), st2))
  ∧ (∀ p kw st1,
      NoDup (map param_name (parameters P T)) →
      p ∈ parameters P T →
      String.eqb (param_name p) "self" = false →
      annotation p = None → has_default p = false →
      build_kwargs (get P d) (parameters P T) [] st = (Return kw, st1) →
      ∃ missing,
        param_name p ∈ missing
        ∧ get P (S d) T st
          = (Raise (AutoWireFailure T (TypeError missing)), st1)).
Proof.
  intros HT Hcls. rewrite get_auto_wire by done. repeat split.
  - intros pre p post t kw st1 e st2 Hps Hpre [Hself Hann] Hget He.
    apply auto_wire_kwargs_raise; [|done].
    rewrite Hps, build_kwargs_app. unfold bind at 1. rewrite Hpre.
    cbn [build_kwargs]. rewrite Hself, Hann. unfold bind.
    by rewrite Hget.
  - intros kw st1 e st2 Hb Hc He. by eapply auto_wire_call_raise.
  - intros p kw st1 Hnd Hp Hself Hann Hdef Hb.
    pose proof (missing_required_unannotated _ _ _ _ _ _ Hnd Hp Hself Hann
                  Hdef Hb) as Hmiss.
    assert (Hunb : param_name p ∈ unbound_names (parameters P T) kw).
    { apply elem_of_app. by right. }
    exists (unbound_names (parameters P T) kw). split; [done|].
    eapply auto_wire_call_raise; [done| |done].
    unfold call_class.
    destruct (unbound_names (parameters P T) kw); [|done].
    by apply elem_of_nil in Hunb.
Qed.

(** ** Cycles and their absence *)

(** With no frame left, the first wired parameter stops the loop. *)
Lemma build_kwargs_depth0 ps kwargs (st : state) p t :
  p ∈ ps → wired_as p t →
  build_kwargs (get P 0) ps kwargs st = (Raise RecursionError, st).
Proof.
  intros Hp [Hself Hann]. revert kwargs.
  induction ps as [|q ps IH]; intros kwargs.
  { by apply elem_of_nil in Hp. }
  cbn [build_kwargs].
  destruct (String.eqb (param_name q) "self") eqn:Hq.
  { apply elem_of_cons in Hp as [->|Hp]; [congruence|by apply IH]. }
  destruct (annotation q) as [u|] eqn:Hu; [done|].
  apply elem_of_cons in Hp as [->|Hp]; [congruence|by apply IH].
Qed.

(** A failing wired parameter makes the loop fail, if what comes before
    it cannot change the container. *)
Lemma build_kwargs_fails g (c : container) ps kwargs (st : state) p t :
  (∀ u st', di st' = c → di (g u st').2 = c) →
  (∀ st', di st' = c → returns_normally (g t st').1 = false) →
  p ∈ ps → wired_as p t → di st = c →
  returns_normally (build_kwargs g ps kwargs st).1 = false.
Proof.
  intros Hdi Hfail Hp [Hself Hann]. revert kwargs st.
  induction ps as [|q ps IH]; intros kwargs st Hst.
  { by apply elem_of_nil in Hp. }
  cbn [build_kwargs].
  destruct (String.eqb (param_name q) "self") eqn:Hq.
  { apply elem_of_cons in Hp as [->|Hp]; [congruence|by apply IH]. }
  destruct (annotation q) as [u|] eqn:Hu.
  - unfold bind. pose proof (Hdi u st Hst) as Hu'.
    destruct (g u st) as [[v|e] st1] eqn:Hg; [|done].
    apply elem_of_cons in Hp as [->|Hp].
    + assert (u = t) as -> by congruence.
      specialize (Hfail st Hst). by rewrite Hg in Hfail.
    + by apply IH.
  - apply elem_of_cons in Hp as [->|Hp]; [congruence|by apply IH].
Qed.

Lemma auto_wire_fails g cls (st : state) :
  returns_normally (build_kwargs g (parameters P cls) [] st).1 = false →
  returns_normally (_auto_wire P g cls st).1 = false.
Proof.
  unfold _auto_wire, try_except, bind.
  destruct (build_kwargs g (parameters P cls) [] st) as [[kw|e] st1];
    [done|].
  by destruct (is_Exception e).
Qed.

Lemma self_dependent_never_returns (c : container) cyc :
  preserves_container P c → self_dependent P c cyc →
  ∀ d k (st : state), cyc k → di st = c →
    returns_normally (get P d k st).1 = false.
Proof.
  intros HP Hcyc. induction d as [|d IH]; intros k st Hk Hst; [done|].
  destruct (Hcyc k Hk) as (Hunreg & t & [Hcls (p & Hp & Hw)] & Ht).
  subst c. rewrite get_auto_wire by done.
  apply auto_wire_fails.
  apply (build_kwargs_fails _ (di st) _ _ _ p t); try done.
  - intros u st' Hst'. by apply get_di.
  - intros st' Hst'. by apply IH.
Qed.

Lemma self_dependent_exhausts_depth (c : container) cyc :
  self_dependent_first P c cyc →
  ∀ d k (st : state), cyc k → di st = c →
    ∃ e, get P d k st = (Raise e, st)
         ∧ root_cause e = RecursionError ∧ chain_length e = d.
Proof.
  intros Hcyc. induction d as [|d IH]; intros k st Hk Hst.
  { by exists RecursionError. }
  destruct (Hcyc k Hk)
    as (Hunreg & Hcls & pre & p & post & t & Hps & Hpre & Hw & Ht).
  subst c. rewrite get_auto_wire by done.
  destruct d as [|d].
  - exists (AutoWireFailure k RecursionError). split; [|done].
    apply auto_wire_kwargs_raise; [|done].
    apply (build_kwargs_depth0 _ _ _ p t); [|done].
    rewrite Hps. apply elem_of_app. right. by left.
  - destruct (IH t st Ht eq_refl) as (e & Hget & Hroot & Hlen).
    exists (AutoWireFailure k e). split; [|by simpl; rewrite Hroot, Hlen].
    apply auto_wire_kwargs_raise.
    + rewrite Hps, build_kwargs_app. unfold bind at 1.
      rewrite build_kwargs_quiet by done.
      destruct Hw as [Hself Hann].
      cbn [build_kwargs]. rewrite Hself, Hann. unfold bind.
      by rewrite Hget.
    + destruct e as [[]| | | |]; simpl in Hlen; done.
Qed.

Lemma settles_mono k n m : settles P k n → n ≤ m → settles P k m.
Proof.
  intros Hn Hnm d st Hd. rewrite (Hn d), (Hn m) by lia. done.
Qed.

Lemma settles_bound (ps : list (param key)) :
  (∀ p t, p ∈ ps → wired_as p t → ∃ n, settles P t n) →
  ∃ N, ∀ p t, p ∈ ps → wired_as p t → settles P t N.
Proof.
  induction ps as [|q ps IH]; intros Hps.
  { exists 0. intros p t Hp. by apply elem_of_nil in Hp. }
  destruct IH as [N HN].
  { intros p t Hp. apply Hps. by right. }
  destruct (String.eqb (param_name q) "self") eqn:Hself.
  { exists N. intros p t Hp Hw.
    apply elem_of_cons in Hp as [->|Hp]; [|by apply (HN p)].
    destruct Hw. congruence. }
  destruct (annotation q) as [u|] eqn:Hann.
  - destruct (Hps q u) as [n Hn]; [by left|done|].
    exists (N `max` n). intros p t Hp Hw.
    apply elem_of_cons in Hp as [->|Hp].
    + destruct Hw as [_ Hw]. assert (t = u) as -> by congruence.
      apply (settles_mono u n); [done|lia].
    + apply (settles_mono t N); [by apply (HN p)|lia].
  - exists N. intros p t Hp Hw.
    apply elem_of_cons in Hp as [->|Hp]; [|by apply (HN p)].
    destruct Hw. congruence.
Qed.

Lemma acyclic_settles k : Acc (depends P) k → ∃ n, settles P k n.
Proof.
  induction 1 as [k _ IH].
  destruct (isclass P k) eqn:Hcls.
  - destruct (settles_bound (parameters P k)) as [N HN].
    { intros p t Hp Hw. apply IH. split; [done|]. by exists p. }
    exists (S N). intros d st Hd.
    destruct d as [|d]; [lia|]. cbn [get].
    case_fixed st k.
    destruct (_factories (di st) !! k); [done|].
    rewrite Hcls. unfold _auto_wire, try_except, bind.
    rewrite (build_kwargs_ext (get P d) (get P N)); [done|].
    intros p t Hp Hw st'. apply (HN p t Hp Hw). lia.
  - exists 1. intros d st Hd.
    destruct d as [|d]; [lia|]. cbn [get]. by rewrite Hcls.
Qed.

(** C9 (amended). There is no cycle detection.  For classes without
    registration that depend on themselves through auto-wired
    constructor parameters: if the parameters handled before the one
    that closes the cycle are skipped or have fixed values, [get] goes
    down until the recursion depth is used up, and the
    [RecursionError] comes back wrapped once per level; in any case, if
    user code does not change the container, [get] never returns
    normally, whatever depth is available.  Where the dependency
    relation is well founded at a key, the recursion ends: from some
    depth on the result does not depend on the depth. *)
Theorem cyclic_auto_wire_fails_acyclic_settles (c : container) cyc :
  (self_dependent_first P c cyc →
   ∀ d k (st : state), cyc k → di st = c →
     ∃ e, get P d k st = (Raise e, st)
          ∧ root_cause e = RecursionError ∧ chain_length e = d)
  ∧ (preserves_container P c → self_dependent P c cyc →
     ∀ d k (st : state), cyc k → di st = c →
       returns_normally (get P d k st).1 = false)
  ∧ (∀ k, Acc (depends P) k → ∃ n, settles P k n).
Proof.
  split; [|split].
  - apply self_dependent_exhausts_depth.
  - apply self_dependent_never_returns.
  - apply acyclic_settles.
Qed.

(** ** Containers that look the same to [get] *)

Lemma transfers_ret {A} (c1 c2 : container) (a : A) :
  transfers c1 c2 (ret (world:=world) a).
Proof. done. Qed.

Lemma transfers_raise {A} (c1 c2 : container) e :
  transfers c1 c2 (raise (world:=world) (A:=A) e).
Proof. done. Qed.

Lemma transfers_bind {A B} (c1 c2 : container)
    (m : M key value world callable A) (f : A → M key value world callable B) :
  transfers c1 c2 m → (∀ a, transfers c1 c2 (f a)) →
  transfers c1 c2 (bind m f).
Proof.
  intros Hm Hf w log. unfold bind.
  destruct (Hm w log) as [Hdi ->].
  destruct (m (mkState c1 w log)) as [[a|e] [c w' log']]; simpl in *;
    subst; [|done].
  apply Hf.
Qed.

Lemma transfers_try_except {A} (c1 c2 : container)
    (m : M key value world callable A) h :
  transfers c1 c2 m → (∀ e, transfers c1 c2 (h e)) →
  transfers c1 c2 (try_except m h).
Proof.
  intros Hm Hh w log. unfold try_except.
  destruct (Hm w log) as [Hdi ->].
  destruct (m (mkState c1 w log)) as [[a|e] [c w' log']]; simpl in *;
    subst; [done|].
  destruct (is_Exception e); [apply Hh|done].
Qed.

Lemma transfers_call_factory (c1 c2 : container) f :
  ignores_container P → transfers c1 c2 (call_factory P f).
Proof.
  intros [Hf _] w log. unfold call_factory. simpl.
  rewrite (Hf f c2 c1 w), (Hf f c1 c1 w).
  by destruct (run_callable P f c1 w) as [[r c] w'].
Qed.

Lemma transfers_call_class (c1 c2 : container) cls kwargs :
  ignores_container P → transfers c1 c2 (call_class P cls kwargs).
Proof.
  intros [_ Hi] w log. unfold call_class. simpl.
  destruct (unbound_names _ _); [|done].
  rewrite (Hi cls kwargs c2 c1 w), (Hi cls kwargs c1 c1 w).
  by destruct (run_init P cls kwargs c1 w) as [[r c] w'].
Qed.

Lemma transfers_build_kwargs (c1 c2 : container)
    (g : key → M key value world callable value) ps kwargs :
  (∀ t, transfers c1 c2 (g t)) →
  transfers c1 c2 (build_kwargs g ps kwargs).
Proof.
  intros Hg. revert kwargs.
  induction ps as [|p ps IH]; intros kwargs; cbn [build_kwargs].
  { apply transfers_ret. }
  destruct (String.eqb (param_name p) "self"); [apply IH|].
  destruct (annotation p) as [t|]; [|apply IH].
  apply transfers_bind; [apply Hg|]. intros v. apply IH.
Qed.

Lemma fixed_value_None (c : container) k :
  fixed_value c k = None ↔
  _singletons c !! k = None ∧ _services c !! k = None.
Proof.
  unfold fixed_value. destruct (_singletons c !! k); [|by split; [intros|intros []]].
  split; [done|by intros []].
Qed.

Lemma transfers_get (c1 c2 : container) d k :
  ignores_container P → same_view c1 c2 →
  transfers c1 c2 (get P d k).
Proof.
  intros HP [Hfix Hfac]. revert k.
  induction d as [|d IH]; intros k; [apply transfers_raise|].
  destruct (fixed_value c1 k) as [v|] eqn:Hv.
  - intros w log.
    rewrite (get_fixed_value d k (mkState c1 w log) v) by done.
    rewrite (get_fixed_value d k (mkState c2 w log) v); [done|].
    simpl. by rewrite <- Hfix.
  - pose proof Hv as Hv2. rewrite Hfix in Hv2.
    apply fixed_value_None in Hv as [Hs1 Hi1].
    apply fixed_value_None in Hv2 as [Hs2 Hi2].
    assert (Hstep : transfers c1 c2 (λ st : state,
              match _factories c1 !! k with
              | Some f => call_factory P f st
              | None => if isclass P k then _auto_wire P (get P d) k st
                        else raise (UnresolvedDependency k) st
              end)).
    { destruct (_factories c1 !! k) as [f|].
      - by apply transfers_call_factory.
      - destruct (isclass P k); [|apply transfers_raise].
        apply transfers_try_except.
        + apply transfers_bind.
          * by apply transfers_build_kwargs.
          * intros kw. by apply transfers_call_class.
        + intros e. apply transfers_raise. }
    intros w log. specialize (Hstep w log).
    cbn [get]. simpl di. rewrite Hs1, Hi1, Hs2, Hi2, <- Hfac.
    exact Hstep.
Qed.

Lemma transfers_get_each (c1 c2 : container) d ks :
  ignores_container P → same_view c1 c2 →
  transfers c1 c2 (get_each P d ks).
Proof.
  intros HP Hview. induction ks as [|k ks IH]; [done|].
  intros w log. cbn [get_each].
  destruct (transfers_get c1 c2 d k HP Hview w log) as [Hdi ->].
  destruct (get P d k (mkState c1 w log)) as [r [c w' log']]; simpl in *;
    subst. unfold with_container; simpl.
  destruct (IH w' log') as [Hdi' ->].
  by destruct (get_each P d ks (mkState c1 w' log')) as [rs st'].
Qed.

Lemma swapped_at_start k v (c : container) :
  _singletons c !! k = None →
  swapped_at k v (register_singleton k v c) (register_instance k v c).
Proof.
  intros Hs. split; [done|]. split.
  - intros k' Hk'. simpl. by rewrite !lookup_insert_ne.
  - right. simpl. by rewrite !lookup_insert_eq.
Qed.

Lemma swapped_at_register k v r (c1 c2 : container) :
  is_instance_registration k r = false →
  swapped_at k v c1 c2 → swapped_at k v (register r c1) (register r c2).
Proof.
  intros Hr (Hfac & Hother & Hk).
  destruct r as [k0 x|k0 f|k0 x]; unfold swapped_at; simpl in *.
  - split; [done|]. split.
    + intros k' Hk'. destruct (Hother k' Hk') as [Hs Hi].
      split; [|done]. rewrite !lookup_insert. by case_decide.
    + destruct (decide (k0 = k)) as [->|Hne].
      * left. rewrite !lookup_insert_eq. by split.
      * by rewrite !lookup_insert_ne.
  - split; [by rewrite Hfac|done].
  - apply bool_decide_eq_false in Hr.
    split; [done|]. split.
    + intros k' Hk'. destruct (Hother k' Hk') as [Hs Hi].
      split; [done|]. rewrite !lookup_insert. by case_decide.
    + by rewrite !lookup_insert_ne.
Qed.

Lemma swapped_at_register_all k v rs (c1 c2 : container) :
  Forall (λ r, is_instance_registration k r = false) rs →
  swapped_at k v c1 c2 →
  swapped_at k v (register_all rs c1) (register_all rs c2).
Proof.
  intros Hrs. revert c1 c2.
  induction Hrs as [|r rs Hr _ IH]; intros c1 c2 Hsw; [done|].
  rewrite !register_all_cons. by apply IH, swapped_at_register.
Qed.

Lemma swapped_at_same_view k v (c1 c2 : container) :
  swapped_at k v c1 c2 → same_view c1 c2.
Proof.
  intros (Hfac & Hother & Hk). split; [|done].
  intros k'. unfold fixed_value.
  destruct (decide (k' = k)) as [->|Hne].
  - destruct Hk as [[Heq [x Hx]]|(H1 & H2 & H3)].
    + by rewrite <- Heq, Hx.
    + by rewrite H1, H2, H3.
  - destruct (Hother k' Hne) as [-> ->]. done.
Qed.

(** C3 (amended). [register_singleton(k, v)] and
    [register_instance(k, v)] can be exchanged without changing the
    outcome of any later [get], for any sequence of registrations
    before and after, when [k] has no singleton at the time of the
    call, no later [register_instance] is made for [k], and the
    factories and constructors do not look at the container. *)
Theorem singleton_instance_interchangeable
    pre post k v (c0 : container) d ks w log :
  ignores_container P →
  _singletons (register_all pre c0) !! k = None →
  Forall (λ r, is_instance_registration k r = false) post →
  (get_each P d ks
     (mkState (register_all (pre ++ RegisterSingleton k v :: post) c0)
              w log)).1
  = (get_each P d ks
       (mkState (register_all (pre ++ RegisterInstance k v :: post) c0)
                w log)).1.
Proof.
  intros HP Hk Hpost. rewrite !register_all_app, !register_all_cons.
  set (c1 := register_all post _). set (c2 := register_all post _).
  assert (Hview : same_view c1 c2).
  { apply (swapped_at_same_view k v), swapped_at_register_all; [done|].
    by apply swapped_at_start. }
  destruct (transfers_get_each c1 c2 d ks HP Hview w log) as [_ ->].
  done.
Qed.

End Resolution.

(** * The container at work on the small program *)

Example get_walks_the_steps :
  (get demo 1 "K" (boot (register_singleton "K" (VInt 1) __init__))).1
  = Return (VInt 1)
  ∧ (get demo 1 "K" (boot (register_instance "K" (VInt 2) __init__))).1
    = Return (VInt 2)
  ∧ (get demo 1 "K" (boot (register_transient "K" (plain next_id) __init__))).1
    = Return (VInt 0)
  ∧ (get demo 1 "Database" (boot __init__)).1 = Return (VObject "Database" [])
  ∧ (get demo 1 "K" (boot __init__)).1 = Raise (UnresolvedDependency "K").
Proof. vm_compute. done. Qed.

Example get_node_at_depth_3 :
  (get demo 3 "Node" (boot __init__)).1
  = Raise (AutoWireFailure "Node"
             (AutoWireFailure "Node"
                (AutoWireFailure "Node" RecursionError))).
Proof. vm_compute. done. Qed.

(** C2, as stated, fails: an instance or a factory registered after a
    singleton for the same key does not replace it; both entries stay and
    [get] still returns the singleton. *)
Lemma later_registration_does_not_overwrite :
  let c1 := register_instance "K" (VInt 2)
              (register_singleton "K" (VInt 1) __init__) in
  let c2 := register_transient "K" (plain next_id)
              (register_singleton "K" (VInt 1) __init__) in
  (get demo 1 "K" (boot c1) = (Return (VInt 1), boot c1)
   ∧ _singletons c1 !! "K" = Some (VInt 1)
   ∧ _services c1 !! "K" = Some (VInt 2))
  ∧ (get demo 1 "K" (boot c2) = (Return (VInt 1), boot c2)
     ∧ _singletons c2 !! "K" = Some (VInt 1)
     ∧ _factories c2 !! "K" = Some (plain next_id)).
Proof. vm_compute. done. Qed.

(** C3, as stated, fails: with a later [register_instance] for the same
    key the two calls are told apart, and so they are by a factory that
    looks into the singleton dictionary. *)
Lemma singleton_instance_distinguished :
  (get_each demo 1 ["K"]
     (boot (register_all [RegisterSingleton "K" (VInt 1);
                          RegisterInstance "K" (VInt 2)] __init__))).1
  = [Return (VInt 1)]
  ∧ (get_each demo 1 ["K"]
       (boot (register_all [RegisterInstance "K" (VInt 1);
                            RegisterInstance "K" (VInt 2)] __init__))).1
    = [Return (VInt 2)]
  ∧ (get_each demo 1 ["probe"]
       (boot (register_all [RegisterTransient "probe" peek;
                            RegisterSingleton "Database" db] __init__))).1
    = [Return (VInt 1)]
  ∧ (get_each demo 1 ["probe"]
       (boot (register_all [RegisterTransient "probe" peek;
                            RegisterInstance "Database" db] __init__))).1
    = [Return (VInt 0)].
Proof. vm_compute. done. Qed.

(** C5, as stated, fails: a key that also has a singleton never reaches
    its factory, and a factory that registers its result as a singleton
    is called once for three calls of [get]. *)
Lemma factory_not_called_once_per_get :
  let c1 := register_transient "K" (plain next_id)
              (register_singleton "K" (VInt 9) __init__) in
  let c2 := register_transient "Session" memoize __init__ in
  (get demo 1 "K" (boot c1)).1 = Return (VInt 9)
  ∧ calls (get demo 1 "K" (boot c1)).2 = []
  ∧ calls (repeat_call 3 (get demo 1 "Session") (boot c2)).2
    = [Invoked memoize].
Proof. vm_compute. done. Qed.

(** C7, as stated, fails: a parameter without declared type that has a
    default value is left out and the class is built; and a constructor
    that fails with an exception outside [Exception] is not wrapped. *)
Lemma auto_wire_failure_not_raised :
  demo_parameters "Retry" = [self_param; mkParam "attempts" None true]
  ∧ (get demo 1 "Retry" (boot __init__)).1 = Return (VObject "Retry" [])
  ∧ (get demo 1 "Fatal" (boot __init__)).1
    = Raise (NonException "SystemExit").
Proof. vm_compute. done. Qed.

(** C9, as stated, fails: "Late" takes itself as a parameter, yet its
    resolution ends at depth 2 with the failure of an earlier parameter,
    the same with 2 frames and with 1000; and "Seeded" takes itself as a
    parameter, yet returns normally, a factory called on the way having
    registered a singleton for it. *)
Lemma self_dependent_without_depth_failure :
  demo_parameters "Late"
  = [self_param; mkParam "settings" (Some "settings") false;
     mkParam "again" (Some "Late") false]
  ∧ (get demo 2 "Late" (boot __init__)).1
    = Raise (AutoWireFailure "Late" (UnresolvedDependency "settings"))
  ∧ get demo 1000 "Late" (boot __init__) = get demo 2 "Late" (boot __init__)
  ∧ (get demo 3 "Seeded"
       (boot (register_transient "seed" bootstrap __init__))).1
    = Return (VObject "Seeded"
                [("seed", VInt 0); ("again", VObject "Seeded" [])]).
Proof. vm_compute. done. Qed.

(** ** The theorems at concrete inputs *)

Lemma plain_demo_ignores_container : ignores_container plain_demo.
Proof.
  split.
  - intros f c c' w. reflexivity.
  - intros cls kwargs c c' w. simpl. unfold demo_run_init.
    by destruct (String.eqb cls "Fatal").
Defined.

Lemma plain_demo_preserves_container c : preserves_container plain_demo c.
Proof.
  split.
  - intros k f w _. reflexivity.
  - intros cls kwargs w _. simpl. unfold demo_run_init.
    by destruct (String.eqb cls "Fatal").
Defined.

Lemma singleton_returned_on_every_call_witness :
  let rs := [RegisterInstance "L" (VInt 2);
             RegisterTransient "M" (plain next_id)] in
  let st' := with_container
               (register_all rs (register_singleton "K" (VInt 1) __init__))
               (boot __init__) in
  Forall (λ r, registration_key r ≠ "K") rs
  ∧ repeat_call 3 (get demo 1 "K") st'
    = ([Return (VInt 1); Return (VInt 1); Return (VInt 1)], st').
Proof.
  intros rs st'.
  assert (Hrs : Forall (λ r, registration_key r ≠ "K") rs).
  { repeat constructor; discriminate. }
  split; [exact Hrs|].
  exact (singleton_returned_on_every_call demo "K" (VInt 1) rs
           (boot __init__) 3 0 Hrs).
Defined.

Lemma unresolved_dependency_raised_witness :
  unregistered (__init__ : DIContainer string demo_value demo_callable) "settings"
  ∧ demo_isclass "settings" = false
  ∧ get demo 1 "settings" (boot __init__)
    = (Raise (UnresolvedDependency "settings"), boot __init__).
Proof.
  assert (Hu : unregistered
                 (__init__ : DIContainer string demo_value demo_callable)
                 "settings") by (repeat split).
  assert (Hc : demo_isclass "settings" = false) by reflexivity.
  split; [exact Hu|]. split; [exact Hc|].
  exact (unresolved_dependency_raised demo 0 "settings" (boot __init__) Hu Hc).
Defined.

Lemma transient_calls_factory_each_time_witness :
  let st := boot (register_transient "id" (plain next_id) __init__) in
  fixed_value (di st) "id" = None
  ∧ _factories (di st) !! "id" = Some (plain next_id)
  ∧ (∀ c w, (demo_run_callable (plain next_id) c w).1.2 = c)
  ∧ get demo 1 "id" st = call_factory demo (plain next_id) st
  ∧ calls (get demo 1 "id" st).2 = [Invoked (plain next_id)]
  ∧ repeat_call 3 (get demo 1 "id") st
    = repeat_call 3 (call_factory demo (plain next_id)) st
  ∧ calls (repeat_call 3 (get demo 1 "id") st).2
    = [Invoked (plain next_id); Invoked (plain next_id);
       Invoked (plain next_id)].
Proof.
  intros st.
  assert (Hfix : fixed_value (di st) "id" = None) by reflexivity.
  assert (Hfac : _factories (di st) !! "id" = Some (plain next_id))
    by reflexivity.
  assert (Hpure : ∀ c w, (demo_run_callable (plain next_id) c w).1.2 = c)
    by reflexivity.
  destruct (transient_calls_factory_each_time demo "id" (plain next_id) 0 st
              Hfix Hfac) as (H1 & H2 & H3).
  destruct (H3 Hpure 3) as [H4 H5].
  repeat split; assumption.
Defined.

(** C6, as stated, fails: with the singleton for "Database" registered,
    "Strict", whose parameter cannot be passed by keyword (the keyword
    is not accepted, and the parameter is left without argument), and
    "Report", which has a further parameter that does not resolve, are
    not built; and "Audit" is built with another object than that
    singleton, a factory called for its first parameter having
    registered it. *)
Lemma auto_wire_with_singleton_not_as_claimed :
  let st := boot (register_singleton "Database" db __init__) in
  let st' := boot (register_all [RegisterSingleton "Database" db;
                                 RegisterTransient "stamp" rebind_database]
                                __init__) in
  (get handler_demo 2 "Strict" st).1
  = Raise (AutoWireFailure "Strict" (TypeError ["db"; "db"]))
  ∧ (get handler_demo 2 "Report" st).1
    = Raise (AutoWireFailure "Report" (UnresolvedDependency "layout"))
  ∧ (get handler_demo 2 "Audit" st').1
    = Return (VObject "Audit" [("stamp", VInt 0); ("db", spare_db)])
  ∧ spare_db ≠ db.
Proof. intros st st'. do 3 (split; [reflexivity|]). discriminate. Qed.

Lemma auto_wire_passes_singleton_witness :
  let st := boot (register_all [RegisterSingleton "Database" db;
                                RegisterTransient "IdT" fresh_id]
                               __init__) in
  let handler :=
    VObject "Handler" [("db", db); ("logger", VObject "Logger" [])] in
  let job := VObject "Job" [("id", VInt 0); ("db", db)] in
  (unregistered (di st) "Handler" ∧ unregistered (di st) "Job"
   ∧ _singletons (di st) !! "Database" = Some db)
  ∧ (get handler_demo 2 "Handler" st).1 = Return handler
  ∧ (get handler_demo 2 "Job" st).1 = Return job.
Proof.
  intros st handler job.
  assert (Hu : ∀ k, k ≠ "Database" → k ≠ "IdT" → unregistered (di st) k).
  { intros k Hk1 Hk2. repeat split; simpl.
    - by rewrite lookup_insert_ne.
    - by rewrite lookup_insert_ne. }
  assert (Hdb : _singletons (di st) !! "Database" = Some db) by reflexivity.
  split; [repeat split; try done; by apply Hu|]. split.
  - pose (st2 := mkState (di st) 0 [Constructed "Logger" []]).
    pose (st3 := mkState (di st) 0
                   [Constructed "Logger" [];
                    Constructed "Handler"
                      [("db", db); ("logger", VObject "Logger" [])]]).
    destruct (auto_wire_passes_singleton handler_demo "Handler" "Database"
                db [self_param] (mkParam "db" (Some "Database") false)
                [mkParam "logger" (Some "Logger") false] 0 st st st2 st3
                [] [("db", db); ("logger", VObject "Logger" [])] handler)
      as [-> _]; try reflexivity; [by apply Hu|by split].
  - pose (st1 := mkState (di st) 1 [Invoked fresh_id]).
    pose (st3 := mkState (di st) 1
                   [Invoked fresh_id;
                    Constructed "Job" [("id", VInt 0); ("db", db)]]).
    destruct (auto_wire_passes_singleton handler_demo "Job" "Database"
                db [self_param; mkParam "id" (Some "IdT") false]
                (mkParam "db" (Some "Database") false) [] 0 st st1 st1 st3
                [("id", VInt 0)] [("id", VInt 0); ("db", db)] job)
      as [-> _]; try reflexivity; [by apply Hu|by split].
Defined.

Lemma auto_wire_failure_wraps_exception_witness :
  let st : pystate string demo_value nat demo_callable := boot __init__ in
  (unregistered (di st) "Late" ∧ demo_isclass "Late" = true
   ∧ get demo 1 "settings" st = (Raise (UnresolvedDependency "settings"), st)
   ∧ get demo 2 "Late" st
     = (Raise (AutoWireFailure "Late" (UnresolvedDependency "settings")), st))
  ∧ (unregistered (di st) "Untyped" ∧ demo_isclass "Untyped" = true
     ∧ NoDup (map param_name (demo_parameters "Untyped"))
     ∧ ∃ missing,
         "x" ∈ missing
         ∧ get demo 1 "Untyped" st
           = (Raise (AutoWireFailure "Untyped" (TypeError missing)), st)).
Proof.
  intros st.
  assert (Hu : ∀ k, unregistered (di st) k) by (intros k; repeat split).
  split.
  - split; [apply Hu|]. split; [reflexivity|]. split; [reflexivity|].
    destruct (auto_wire_failure_wraps_exception demo "Late" 1 st
                (Hu "Late") eq_refl) as (Hparam & _ & _).
    apply (Hparam [self_param] (mkParam "settings" (Some "settings") false)
             [mkParam "again" (Some "Late") false] "settings" [] st).
    + reflexivity.
    + reflexivity.
    + split; reflexivity.
    + reflexivity.
    + reflexivity.
  - assert (Hnd : NoDup (map param_name (demo_parameters "Untyped"))).
    { apply NoDup_cons. split; [|apply NoDup_singleton].
      intros Hin. apply list_elem_of_singleton in Hin. discriminate. }
    split; [apply Hu|]. split; [reflexivity|]. split; [exact Hnd|].
    destruct (auto_wire_failure_wraps_exception demo "Untyped" 0 st
                (Hu "Untyped") eq_refl) as (_ & _ & Hmissing).
    apply (Hmissing (mkParam "x" None false) [] st Hnd).
    + right. left.
    + reflexivity.
    + reflexivity.
    + reflexivity.
    + reflexivity.
Defined.

Lemma ping_pong_self_dependent :
  self_dependent_first plain_demo __init__ (λ k, k = "Ping" ∨ k = "Pong").
Proof.
  intros k Hk. split; [repeat split|].
  destruct Hk as [->| ->]; (split; [reflexivity|]).
  - exists [self_param], (mkParam "pong" (Some "Pong") false), [], "Pong".
    split; [reflexivity|]. split; [|split; [split; reflexivity|by right]].
    constructor; [by left|constructor].
  - exists [self_param], (mkParam "ping" (Some "Ping") false), [], "Ping".
    split; [reflexivity|]. split; [|split; [split; reflexivity|by left]].
    constructor; [by left|constructor].
Defined.

Lemma ping_pong_cycle :
  self_dependent plain_demo __init__ (λ k, k = "Ping" ∨ k = "Pong").
Proof.
  intros k Hk. split; [repeat split|].
  destruct Hk as [->| ->].
  - exists "Pong". split; [|by right]. split; [reflexivity|].
    exists (mkParam "pong" (Some "Pong") false).
    split; [right; left|split; reflexivity].
  - exists "Ping". split; [|by left]. split; [reflexivity|].
    exists (mkParam "ping" (Some "Ping") false).
    split; [right; left|split; reflexivity].
Defined.

Lemma service_well_founded : Acc (depends plain_demo) "Service".
Proof.
  constructor. intros t [_ (p & Hp & [Hself Hann])].
  simpl in Hp. apply elem_of_cons in Hp as [->|Hp]; [discriminate|].
  apply list_elem_of_singleton in Hp as ->. injection Hann as <-.
  constructor. intros t [_ (q & Hq & [Hself' _])].
  simpl in Hq. apply list_elem_of_singleton in Hq as ->. discriminate.
Defined.

Lemma cyclic_auto_wire_fails_acyclic_settles_witness :
  let cyc := λ k : string, k = "Ping" ∨ k = "Pong" in
  let st : pystate string demo_value nat plain_callable := boot __init__ in
  self_dependent_first plain_demo __init__ cyc
  ∧ preserves_container plain_demo __init__
  ∧ self_dependent plain_demo __init__ cyc
  ∧ Acc (depends plain_demo) "Service"
  ∧ (∃ e, get plain_demo 3 "Ping" st = (Raise e, st)
          ∧ root_cause e = RecursionError ∧ chain_length e = 3)
  ∧ returns_normally (get plain_demo 1000 "Pong" st).1 = false
  ∧ ∃ n, settles plain_demo "Service" n.
Proof.
  intros cyc st.
  destruct (cyclic_auto_wire_fails_acyclic_settles plain_demo __init__ cyc)
    as (Hdepth & Hnever & Hsettles).
  split; [exact ping_pong_self_dependent|].
  split; [exact (plain_demo_preserves_container __init__)|].
  split; [exact ping_pong_cycle|].
  split; [exact service_well_founded|].
  split; [|split].
  - apply (Hdepth ping_pong_self_dependent 3 "Ping" st); [by left|reflexivity].
  - apply (Hnever (plain_demo_preserves_container __init__) ping_pong_cycle
             1000 "Pong" st);
      [by right|reflexivity].
  - apply Hsettles, service_well_founded.
Defined.

Lemma get_leaves_container_unchanged_witness :
  let st := boot (register_all [RegisterSingleton "Database" db;
                                RegisterTransient "id" (plain next_id)]
                               __init__) in
  preserves_container demo (di st)
  ∧ di (get demo 3 "Service" st).2 = di st
  ∧ di (get demo 3 "id" st).2 = di st
  ∧ di (get demo 3 "Node" st).2 = di st.
Proof.
  intros st.
  assert (HP : preserves_container demo (di st)).
  { split.
    - intros k f w Hk. simpl in Hk.
      apply lookup_insert_Some in Hk as [[_ <-]|[_ Hk]]; [reflexivity|].
      by rewrite lookup_empty in Hk.
    - intros cls kwargs w _. simpl. unfold demo_run_init.
      by destruct (String.eqb cls "Fatal"). }
  split; [exact HP|]. split; [|split].
  - apply (get_leaves_container_unchanged demo 3 "Service" st HP).
  - apply (get_leaves_container_unchanged demo 3 "id" st HP).
  - apply (get_leaves_container_unchanged demo 3 "Node" st HP).
Defined.

Lemma singleton_instance_interchangeable_witness :
  let pre := [RegisterTransient "id" next_id] in
  let post := [RegisterSingleton "limit" (VInt 3)] in
  let ks := ["Service"; "id"; "Database"; "id"] in
  ignores_container plain_demo
  ∧ _singletons (register_all pre __init__) !! "Database" = None
  ∧ Forall (λ r, is_instance_registration "Database" r = false) post
  ∧ (get_each plain_demo 3 ks
       (boot (register_all (pre ++ RegisterSingleton "Database" db :: post)
                           __init__))).1
    = (get_each plain_demo 3 ks
         (boot (register_all (pre ++ RegisterInstance "Database" db :: post)
                             __init__))).1.
Proof.
  intros pre post ks.
  assert (Hk : _singletons (register_all pre __init__) !! "Database"
               = (None : option demo_value)) by reflexivity.
  assert (Hpost : Forall (λ r, is_instance_registration "Database" r = false)
                    post) by (repeat constructor).
  split; [exact plain_demo_ignores_container|].
  split; [exact Hk|]. split; [exact Hpost|].
  exact (singleton_instance_interchangeable plain_demo pre post "Database" db
           __init__ 3 ks 0 [] plain_demo_ignores_container Hk Hpost).
Defined.

(** * Further properties of the container *)

Section MoreResolution.

Context {key : Type} `{Countable key} {value world callable : Type}.
Variable P : program key value world callable.

Local Abbreviation state := (pystate key value world callable).
Local Abbreviation container := (DIContainer key value callable).

(** ** A resolution that returns does not depend on the depth left *)

Lemma build_kwargs_returns_mono g g' ps kwargs (st : state) kwargs' st' :
  (∀ t st1 v st2, g t st1 = (Return v, st2) → g' t st1 = (Return v, st2)) →
  build_kwargs g ps kwargs st = (Return kwargs', st') →
  build_kwargs g' ps kwargs st = (Return kwargs', st').
Proof.
  intros Hg. revert kwargs st.
  induction ps as [|p ps IH]; intros kwargs st; cbn [build_kwargs]; [done|].
  destruct (String.eqb (param_name p) "self"); [apply IH|].
  destruct (annotation p) as [t|]; [|apply IH].
  unfold bind. destruct (g t st) as [[v|e] st1] eqn:Hgt; [|done].
  rewrite (Hg _ _ _ _ Hgt). apply IH.
Qed.

Lemma auto_wire_returns_mono g g' cls (st : state) v st' :
  (∀ t st1 v st2, g t st1 = (Return v, st2) → g' t st1 = (Return v, st2)) →
  _auto_wire P g cls st = (Return v, st') →
  _auto_wire P g' cls st = (Return v, st').
Proof.
  intros Hg. unfold _auto_wire, try_except, bind.
  destruct (build_kwargs g (parameters P cls) [] st) as [[kw|e] st1] eqn:Hb.
  - by rewrite (build_kwargs_returns_mono g g' _ _ _ _ _ Hg Hb).
  - by destruct (is_Exception e).
Qed.

Lemma get_returns_S d k (st : state) v st' :
  get P d k st = (Return v, st') → get P (S d) k st = (Return v, st').
Proof.
  revert k st v st'. induction d as [|d IH]; intros k st v st'; [done|].
  cbn [get].
  destruct (_singletons (di st) !! k); [done|].
  destruct (_services (di st) !! k); [done|].
  destruct (_factories (di st) !! k); [done|].
  destruct (isclass P k); [|done].
  apply auto_wire_returns_mono. intros t st1 v1 st2. apply IH.
Qed.

(** X1. A call of [get] that returns normally with some depth left
    returns the same value, with the same effects, with any larger
    depth. *)
Theorem get_return_independent_of_depth d d' k (st : state) v st' :
  d ≤ d' → get P d k st = (Return v, st') → get P d' k st = (Return v, st').
Proof.
  induction 1 as [|d' _ IH]; [done|].
  intros Hget. by apply get_returns_S, IH.
Qed.

(** ** The keyword arguments of the constructor call *)

Lemma build_kwargs_names_exact g ps kwargs (st : state) kwargs' st' :
  build_kwargs g ps kwargs st = (Return kwargs', st') →
  map fst kwargs'
  = map fst kwargs ++ map param_name (List.filter is_wired ps).
Proof.
  revert kwargs st. induction ps as [|p ps IH]; intros kwargs st;
    cbn [build_kwargs List.filter].
  - unfold ret. intros [= <- <-]. by rewrite app_nil_r.
  - unfold is_wired at 1.
    destruct (String.eqb (param_name p) "self"); simpl; [apply IH|].
    destruct (annotation p) as [t|]; [|apply IH].
    unfold bind. destruct (g t st) as [[v|e] st1]; [|done].
    intros Hb. rewrite (IH _ _ Hb), map_app. simpl.
    by rewrite <- app_assoc.
Qed.

(** X2. When [get] auto-wires a class and returns, the last call into
    user code is the constructor call, and its keyword arguments are, by
    name and in the order of the signature, the parameters other than
    [self] that have an annotation: nothing else is passed. *)
Theorem auto_wire_passes_annotated_parameters T d (st : state) obj st' :
  unregistered (di st) T → isclass P T = true →
  get P (S d) T st = (Return obj, st') →
  ∃ kwargs,
    last (calls st') = Some (Constructed T kwargs)
    ∧ map fst kwargs
      = map param_name (List.filter is_wired (parameters P T)).
Proof.
  intros HT Hcls. rewrite get_auto_wire by done.
  unfold _auto_wire, try_except, bind.
  destruct (build_kwargs (get P d) (parameters P T) [] st)
    as [[kw|e] st1] eqn:Hb; [|by destruct (is_Exception e)].
  unfold call_class. destruct (unbound_names _ _); [|done].
  destruct (run_init P T kw (di st1) (heap st1)) as [[[v|e] c] w].
  - intros [= <- <-]. exists kw. simpl. split; [apply last_snoc|].
    by rewrite (build_kwargs_names_exact _ _ _ _ _ _ Hb).
  - by destruct (is_Exception e).
Qed.

(** ** The failures of [get] *)

(** X3. A failure of [get(k)] is one of: [RecursionError], when there
    is no frame left for the call itself; the failure of the factory
    registered for [k]; "No registration found" for [k] itself;
    "Failed to auto-wire" [k], carrying the cause; or an exception
    outside [Exception] raised by user code.  So a [TypeError] of the
    constructor call, and any failure within [Exception] met while
    resolving the dependencies of [k], their depth failures included,
    reach the caller only inside a failure that names [k]. *)
Theorem get_failure_classified d k (st : state) e st' :
  get P d k st = (Raise e, st') →
  (d = 0 ∧ e = RecursionError ∧ st' = st)
  ∨ (fixed_value (di st) k = None
     ∧ ∃ f, _factories (di st) !! k = Some f
            ∧ call_factory P f st = (Raise e, st'))
  ∨ (unregistered (di st) k ∧ isclass P k = false
     ∧ e = UnresolvedDependency k ∧ st' = st)
  ∨ (unregistered (di st) k ∧ isclass P k = true
     ∧ ((∃ cause, e = AutoWireFailure k cause) ∨ is_Exception e = false)).
Proof.
  destruct d as [|d]; [intros [= <- <-]; by left|]. intros Hget. right.
  revert Hget. cbn [get]. unfold unregistered, fixed_value.
  destruct (_singletons (di st) !! k); [done|].
  destruct (_services (di st) !! k); [done|].
  destruct (_factories (di st) !! k) as [f|].
  { intros Hf. left. split; [done|]. by exists f. }
  destruct (isclass P k).
  - intros Haw. right. right. do 2 (split; [done|]).
    revert Haw. unfold _auto_wire, try_except.
    destruct (bind _ _ st) as [[v|e0] st0]; [done|].
    destruct (is_Exception e0) eqn:He0.
    + intros [= <- <-]. left. by exists e0.
    + intros [= <- <-]. by right.
  - intros [= <- <-]. right. left. done.
Qed.

(** ** Registrations in a different order *)

(** X4. Two registrations that differ in their key or in their variant
    can be made in either order: the container is the same. *)
Theorem registrations_commute (r1 r2 : registration key value callable)
    (c : container) :
  registration_key r1 ≠ registration_key r2
  ∨ registration_variant r1 ≠ registration_variant r2 →
  register r1 (register r2 c) = register r2 (register r1 c).
Proof.
  intros Hdiff.
  destruct r1 as [k1 v1|k1 f1|k1 v1], r2 as [k2 v2|k2 f2|k2 v2];
    simpl in *; try reflexivity;
    (destruct Hdiff as [Hk|Hv]; [|done]);
    unfold register_singleton, register_transient, register_instance;
    simpl; f_equal; by apply insert_insert_ne.
Qed.

(** ** Auto-wired classes are built anew on every call *)

Lemma get_auto_wire_quiet T d (st : state) :
  let kwargs := fixed_kwargs (di st) (parameters P T) in
  unregistered (di st) T → isclass P T = true →
  Forall (quiet (di st)) (parameters P T) →
  (∀ w, (run_init P T kwargs (di st) w).1.2 = di st) →
  ∃ r w',
    get P (S (S d)) T st
    = (r, mkState (di st) w'
            (calls st ++ match unbound_names (parameters P T) kwargs with
                         | [] => [Constructed T kwargs]
                         | _ => []
                         end)).
Proof.
  intros kwargs HT Hcls Hq Hinit.
  rewrite get_auto_wire by done.
  unfold _auto_wire, try_except, bind.
  rewrite build_kwargs_quiet by done. simpl app. fold kwargs.
  unfold call_class.
  destruct (unbound_names (parameters P T) kwargs).
  - specialize (Hinit (heap st)).
    destruct (run_init P T kwargs (di st) (heap st)) as [[[v|e] c] w];
      simpl in Hinit; subst c.
    + by eexists _, _.
    + destruct (is_Exception e); by eexists _, _.
  - simpl. rewrite app_nil_r. destruct st as [c w log].
    by eexists _, _.
Qed.

(** X5. Nothing that the auto-wiring builds is kept: for a class without
    registration whose parameters are skipped or have fixed values, and
    whose constructor leaves the container alone, [n] calls of [get]
    make [n] constructor calls, each with the same keyword arguments, if
    these arguments bind to the parameters of the constructor, and no
    constructor call at all if they do not; the container is afterwards
    as before. *)
Theorem auto_wired_class_built_on_every_get T d n (st : state) :
  let kwargs := fixed_kwargs (di st) (parameters P T) in
  unregistered (di st) T → isclass P T = true →
  Forall (quiet (di st)) (parameters P T) →
  (∀ w, (run_init P T kwargs (di st) w).1.2 = di st) →
  calls (repeat_call n (get P (S (S d)) T) st).2
  = calls st ++ match unbound_names (parameters P T) kwargs with
                | [] => repeat (Constructed T kwargs) n
                | _ => []
                end
  ∧ di (repeat_call n (get P (S (S d)) T) st).2 = di st.
Proof.
  intros kwargs HT Hcls Hq Hinit. subst kwargs.
  remember (di st) as c eqn:Hc. revert st Hc.
  induction n as [|n IH]; intros st Hc.
  { simpl. destruct (unbound_names _ _); by rewrite app_nil_r. }
  cbn [repeat_call]. subst c.
  destruct (get_auto_wire_quiet T d st HT Hcls Hq Hinit) as (r & w' & ->).
  set (log := calls st ++ _).
  specialize (IH (mkState (di st) w' log) eq_refl).
  destruct (repeat_call n _ _) as [rs st2]. simpl in *.
  destruct IH as [-> ->]. split; [|done]. subst log.
  destruct (unbound_names _ _); simpl; by rewrite <- app_assoc.
Qed.

(** ** One factory call per parameter *)

Lemma invocations_app (l1 l2 : list (call_event key value callable)) :
  invocations (l1 ++ l2) = invocations l1 ++ invocations l2.
Proof. apply omap_app. Qed.

Lemma invocations_Invoked (fs : list callable) :
  invocations (key:=key) (value:=value) (map Invoked fs) = fs.
Proof. induction fs as [|f fs IH]; [done|]. simpl. by f_equal. Qed.

Lemma build_kwargs_transient (c : container) d ps kwargs (st : state) :
  (∀ p t, p ∈ ps → wired_as p t →
     fixed_value c t = None
     ∧ ∃ f, _factories c !! t = Some f
            ∧ ∀ w, ∃ v w', run_callable P f c w = (Return v, c, w')) →
  di st = c →
  ∃ kwargs' st1,
    build_kwargs (get P (S d)) ps kwargs st = (Return kwargs', st1)
    ∧ di st1 = c
    ∧ calls st1 = calls st ++ map Invoked (wired_factories c ps).
Proof.
  revert kwargs st. induction ps as [|p ps IH]; intros kwargs st Hps Hst.
  { exists kwargs, st. simpl. by rewrite app_nil_r. }
  assert (Hps' : ∀ q t, q ∈ ps → wired_as q t →
            fixed_value c t = None
            ∧ ∃ f, _factories c !! t = Some f
                   ∧ ∀ w, ∃ v w', run_callable P f c w = (Return v, c, w')).
  { intros q t Hq. apply Hps. by right. }
  cbn [build_kwargs]. unfold wired_factories. cbn [omap list_omap].
  unfold is_wired at 1.
  destruct (String.eqb (param_name p) "self") eqn:Hself; simpl negb;
    cbn [andb]; [by apply IH|].
  destruct (annotation p) as [t|] eqn:Hann; [|by apply IH].
  destruct (Hps p t) as (Hfix & f & Hf & Hrun); [by left|done|].
  rewrite Hf. unfold bind.
  apply fixed_value_None in Hfix as [Hs Hi].
  rewrite get_factory with (f := f) by (by rewrite Hst).
  unfold call_factory. rewrite Hst.
  destruct (Hrun (heap st)) as (v & w' & ->).
  destruct (IH (kwargs ++ [(param_name p, v)])
              (mkState c w' (calls st ++ [Invoked f])) Hps' eq_refl)
    as (kw' & st1 & -> & Hdi & Hcalls).
  exists kw', st1. split; [done|]. split; [done|].
  rewrite Hcalls. simpl. by rewrite <- app_assoc.
Qed.

(** X7. A dependency that has a factory is made once per parameter: when
    [get] auto-wires a class all of whose annotated parameters resolve
    through factories, the factories it calls are, in order, those of the
    annotated parameters, one call for each parameter, also where two
    parameters have the same type.  (The factories are taken to return
    and to leave the container alone.) *)
Theorem transient_dependency_built_per_parameter T d (st : state) :
  unregistered (di st) T → isclass P T = true →
  (∀ p t, p ∈ parameters P T → wired_as p t →
     fixed_value (di st) t = None
     ∧ ∃ f, _factories (di st) !! t = Some f
            ∧ ∀ w, ∃ v w',
                run_callable P f (di st) w = (Return v, di st, w')) →
  invocations (calls (get P (S (S d)) T st).2)
  = invocations (calls st) ++ wired_factories (di st) (parameters P T).
Proof.
  intros HT Hcls Hps. rewrite get_auto_wire by done.
  unfold _auto_wire, try_except, bind.
  destruct (build_kwargs_transient (di st) d (parameters P T) [] st Hps
              eq_refl) as (kw & st1 & -> & Hdi & Hcalls).
  assert (Hinv : invocations (calls st1)
                 = invocations (calls st)
                   ++ wired_factories (di st) (parameters P T)).
  { by rewrite Hcalls, invocations_app, invocations_Invoked. }
  unfold call_class. destruct (unbound_names _ _).
  - destruct (run_init P T kw (di st1) (heap st1)) as [[[v|e] c] w];
      [|destruct (is_Exception e)]; simpl;
      by rewrite invocations_app, Hinv, app_nil_r.
  - simpl. done.
Qed.

End MoreResolution.

(** * The decorators on the global container *)

Section Decorators.

Context {key : Type} `{Countable key} {value world user_callable : Type}.
Variable P : program key value world (factory_object key user_callable).

Local Abbreviation state :=
  (pystate key value world (factory_object key user_callable)).
Local Abbreviation container :=
  (DIContainer key value (factory_object key user_callable)).

Lemma transfers_returns_alike {R} (ca cb : container)
    (m : state → outcome key R * state) :
  transfers ca cb m → returns_alike ca cb m m.
Proof.
  intros Hm w log v st' Hret. destruct (Hm w log) as [Hdi ->].
  rewrite Hret in *. simpl in *. split; [done|].
  destruct st' as [c w' log']. simpl in *. by subst.
Qed.

Lemma returns_alike_build_kwargs (ca cb : container)
    (ga gb : key → state → outcome key value * state) ps kwargs :
  (∀ t, returns_alike ca cb (ga t) (gb t)) →
  returns_alike ca cb (build_kwargs ga ps kwargs) (build_kwargs gb ps kwargs).
Proof.
  intros Hg. revert kwargs.
  induction ps as [|p ps IH]; intros kwargs w log v st';
    cbn [build_kwargs].
  { unfold ret. by intros [= <- <-]. }
  destruct (String.eqb (param_name p) "self"); [apply IH|].
  destruct (annotation p) as [t|]; [|apply IH].
  unfold bind.
  destruct (ga t (mkState ca w log)) as [[a|e] [c w1 log1]] eqn:Hga; [|done].
  destruct (Hg t w log a _ Hga) as [Hdi ->]. simpl in Hdi. subst c.
  apply IH.
Qed.

Lemma returns_alike_auto_wire (ca cb : container)
    (ga gb : key → state → outcome key value * state) cls :
  ignores_container P →
  (∀ t, returns_alike ca cb (ga t) (gb t)) →
  returns_alike ca cb (_auto_wire P ga cls) (_auto_wire P gb cls).
Proof.
  intros HP Hg w log v st'. unfold _auto_wire, try_except, bind.
  destruct (build_kwargs ga (parameters P cls) [] (mkState ca w log))
    as [[kw|e] [c w1 log1]] eqn:Hb; [|by destruct (is_Exception e)].
  destruct (returns_alike_build_kwargs ca cb ga gb _ [] Hg w log kw _ Hb)
    as [Hdi ->]. simpl in Hdi. subst c. unfold with_container. simpl.
  destruct (call_class P cls kw (mkState ca w1 log1)) as [[a|e] st1] eqn:Hc;
    [|by destruct (is_Exception e)].
  intros [= <- <-].
  destruct (transfers_returns_alike ca cb _
              (transfers_call_class P ca cb cls kw HP) w1 log1 a st1 Hc)
    as [Hdi ->].
  done.
Qed.

Lemma returns_alike_weaken {R} (ca cb : container)
    (ma mb mb' : state → outcome key R * state) :
  returns_alike ca cb ma mb →
  (∀ st v st', mb st = (Return v, st') → mb' st = (Return v, st')) →
  returns_alike ca cb ma mb'.
Proof.
  intros Hab Hb w log v st' Hret.
  destruct (Hab w log v st' Hret) as [Hdi Hmb]. split; [done|].
  by apply Hb.
Qed.

(** A resolution on the global container that returns does not depend on
    the depth left either. *)
Lemma container_get_returns_S d :
  ∀ k (st : state) v st',
    container_get P d k st = (Return v, st') →
    container_get P (S d) k st = (Return v, st').
Proof.
  induction d as [d IH] using lt_wf_ind. intros k st v st'.
  destruct d as [|d]; [done|]. cbn [container_get].
  destruct (_singletons (di st) !! k); [done|].
  destruct (_services (di st) !! k); [done|].
  destruct (_factories (di st) !! k) as [[f|cls]|]; [done| |].
  - destruct d as [|d]; [done|].
    apply auto_wire_returns_mono. intros t st1 v1 st2. apply IH. lia.
  - destruct (isclass P k); [|done].
    apply auto_wire_returns_mono. intros t st1 v1 st2. apply IH. lia.
Qed.

Lemma container_get_returns_le d d' k (st : state) v st' :
  d ≤ d' →
  container_get P d k st = (Return v, st') →
  container_get P d' k st = (Return v, st').
Proof.
  induction 1 as [|d' _ IH]; [done|].
  intros Hget. by apply container_get_returns_S, IH.
Qed.

(** What returns with the decoration returns without it. *)
Lemma decorated_returns_alike T (c : container) d k :
  ignores_container P → isclass P T = true → _factories c !! T = None →
  returns_alike (register_transient T (AutoWireLambda T) c) c
    (container_get P d k) (container_get P d k).
Proof.
  intros HP Hcls HT. revert k.
  induction d as [d IH] using lt_wf_ind. intros k.
  destruct d as [|d]; [by intros w log v st'|].
  intros w log v st'. cbn [container_get]. simpl di.
  simpl _singletons. simpl _services. simpl _factories.
  destruct (_singletons c !! k).
  { intros [= <- <-]. done. }
  destruct (_services c !! k).
  { intros [= <- <-]. done. }
  assert (Haw : ∀ d0 cls, d0 < S d →
            returns_alike (register_transient T (AutoWireLambda T) c) c
              (_auto_wire P (container_get P d0) cls)
              (_auto_wire P (container_get P d0) cls)).
  { intros d0 cls Hd0. apply returns_alike_auto_wire; [done|].
    intros t. by apply IH. }
  destruct (decide (T = k)) as [->|Hne].
  - rewrite lookup_insert_eq, HT, Hcls.
    destruct d as [|d]; [done|]. intros Hret.
    destruct (Haw d k ltac:(lia) w log v st' Hret) as [Hdi Hc].
    split; [done|].
    revert Hc. apply auto_wire_returns_mono.
    intros t st1 v1 st2. apply container_get_returns_S.
  - rewrite lookup_insert_ne by done.
    destruct (_factories c !! k) as [[f|cls]|].
    + apply (transfers_returns_alike _ c), transfers_call_factory. done.
    + destruct d as [|d]; [done|]. apply Haw. lia.
    + destruct (isclass P k); [|done]. apply Haw. lia.
Qed.

(** What returns without the decoration returns with it, given twice the
    depth. *)
Lemma undecorated_returns_alike T (c : container) d k :
  ignores_container P → isclass P T = true → _factories c !! T = None →
  returns_alike c (register_transient T (AutoWireLambda T) c)
    (container_get P d k) (container_get P (d + d) k).
Proof.
  intros HP Hcls HT. revert k.
  induction d as [d IH] using lt_wf_ind. intros k.
  destruct d as [|d]; [by intros w log v st'|].
  replace (S d + S d) with (S (S (d + d))) by lia.
  intros w log v st'. cbn [container_get]. simpl di.
  simpl _singletons. simpl _services. simpl _factories.
  destruct (_singletons c !! k).
  { intros [= <- <-]. done. }
  destruct (_services c !! k).
  { intros [= <- <-]. done. }
  assert (Haw : ∀ d0 d1 cls, d0 < S d → d0 + d0 ≤ d1 →
            returns_alike c (register_transient T (AutoWireLambda T) c)
              (_auto_wire P (container_get P d0) cls)
              (_auto_wire P (container_get P d1) cls)).
  { intros d0 d1 cls Hd0 Hd1. apply returns_alike_auto_wire; [done|].
    intros t. apply (returns_alike_weaken _ _ _ _ _ (IH d0 Hd0 t)).
    intros st0 v0 st0'. by apply container_get_returns_le. }
  destruct (decide (T = k)) as [->|Hne].
  - rewrite lookup_insert_eq, HT, Hcls.
    refine (Haw d (d + d) k _ _ w log v st'); lia.
  - rewrite lookup_insert_ne by done.
    destruct (_factories c !! k) as [[f|cls]|].
    + apply (transfers_returns_alike c), transfers_call_factory. done.
    + destruct d as [|d]; [done|].
      refine (Haw d (S d + S d) cls _ _ w log v st'); lia.
    + destruct (isclass P k); [|done].
      refine (Haw d (S (d + d)) k _ _ w log v st'); lia.
Qed.

(** X6. Decorating a class that has no factory with [injectable] changes
    no result for the callers of [inject]: whatever a dependency returns
    without the decoration it returns with it, with the same effects on
    the rest of the program, when given twice the depth (the lambda
    takes a frame at every level); and whatever it returns with the
    decoration it returns without it at the same depth.  The factories
    and constructors of the program are taken not to look at the
    container.  [injectable] returns the class it is given. *)
Theorem injectable_changes_no_return T (st : state) :
  ignores_container P → isclass P T = true →
  _factories (di st) !! T = None →
  (injectable T st).1 = T
  ∧ (∀ d k v st',
       inject P k d st = (Return v, st') →
       inject P k (d + d) (injectable T st).2
       = (Return v, with_container (di (injectable T st).2) st'))
  ∧ (∀ d k v st',
       inject P k d (injectable T st).2 = (Return v, st') →
       inject P k d st = (Return v, with_container (di st) st')).
Proof.
  intros HP Hcls HT. split; [done|].
  destruct st as [c w log]. unfold injectable, with_container. simpl in *.
  split.
  - intros [|d] k v st'; [done|]. cbn [inject].
    replace (S d + S d) with (S (S (d + d))) by lia. cbn [inject].
    intros Hret.
    destruct (undecorated_returns_alike T c d k HP Hcls HT w log v st' Hret)
      as [Hdi Hdec].
    apply container_get_returns_S. exact Hdec.
  - intros [|d] k v st'; [done|]. cbn [inject]. intros Hret.
    by destruct (decorated_returns_alike T c d k HP Hcls HT w log v st' Hret).
Qed.

(** ** Without lambdas, [container_get] is [get] *)

Lemma build_kwargs_agree (c : container) g g' ps kwargs (st : state) :
  (∀ t st', di st' = c → g t st' = g' t st' ∧ di (g t st').2 = c) →
  di st = c →
  build_kwargs g ps kwargs st = build_kwargs g' ps kwargs st.
Proof.
  intros Hg. revert kwargs st.
  induction ps as [|p ps IH]; intros kwargs st Hst; cbn [build_kwargs];
    [done|].
  destruct (String.eqb (param_name p) "self"); [by apply IH|].
  destruct (annotation p) as [t|]; [|by apply IH].
  unfold bind. destruct (Hg t st Hst) as [<- Hdi].
  destruct (g t st) as [[v|e] st1]; [|done]. by apply IH.
Qed.

(** On a container in which no lambda of [injectable] is registered, and
    with user code that leaves the container alone, the [get] of the
    global container is the [get] studied above. *)
Lemma container_get_without_lambdas (c : container) d k (st : state) :
  preserves_container P c →
  (∀ k' cls, _factories c !! k' ≠ Some (AutoWireLambda cls)) →
  di st = c →
  container_get P d k st = get P d k st.
Proof.
  intros HP Hlam. revert k st.
  induction d as [|d IH]; intros k st Hst; [done|].
  cbn [container_get get]. subst c.
  destruct (_singletons (di st) !! k); [done|].
  destruct (_services (di st) !! k); [done|].
  destruct (_factories (di st) !! k) as [[f|cls]|] eqn:Hf.
  - done.
  - by destruct (Hlam k cls).
  - destruct (isclass P k); [|done].
    unfold _auto_wire, try_except, bind.
    rewrite (build_kwargs_agree (di st) (container_get P d) (get P d));
      [done| |done].
    intros t st' Hst'. split; [by apply IH|].
    rewrite IH by done. by apply get_di.
Qed.

End Decorators.

(** ** The further theorems at concrete inputs *)

Lemma get_return_independent_of_depth_witness :
  let st := boot (register_singleton "Database" db __init__) in
  let st' := mkState (di st) 0 [Constructed "Service" [("db", db)]] in
  2 ≤ 1000
  ∧ get demo 2 "Service" st = (Return (VObject "Service" [("db", db)]), st')
  ∧ get demo 1000 "Service" st
    = (Return (VObject "Service" [("db", db)]), st').
Proof.
  intros st st'.
  assert (Hle : 2 ≤ 1000) by lia.
  assert (Hget : get demo 2 "Service" st
                 = (Return (VObject "Service" [("db", db)]), st'))
    by reflexivity.
  split; [exact Hle|]. split; [exact Hget|].
  exact (get_return_independent_of_depth demo 2 1000 "Service" st _ _
           Hle Hget).
Defined.

Lemma auto_wire_passes_annotated_parameters_witness :
  let st := boot (register_singleton "Database" db __init__) in
  let st' := mkState (di st) 0 [Constructed "Service" [("db", db)]] in
  unregistered (di st) "Service"
  ∧ demo_isclass "Service" = true
  ∧ get demo 2 "Service" st = (Return (VObject "Service" [("db", db)]), st')
  ∧ ∃ kwargs,
      last (calls st') = Some (Constructed "Service" kwargs)
      ∧ map fst kwargs = ["db"].
Proof.
  intros st st'.
  assert (Hu : unregistered (di st) "Service") by (repeat split).
  assert (Hget : get demo 2 "Service" st
                 = (Return (VObject "Service" [("db", db)]), st'))
    by reflexivity.
  split; [exact Hu|]. split; [reflexivity|]. split; [exact Hget|].
  exact (auto_wire_passes_annotated_parameters demo "Service" 1 st _ _
           Hu eq_refl Hget).
Defined.

Lemma get_failure_classified_witness :
  let st : pystate string demo_value nat demo_callable := boot __init__ in
  let e := AutoWireFailure "Untyped" (TypeError ["x"]) in
  get demo 2 "Untyped" st = (Raise e, st)
  ∧ unregistered (di st) "Untyped" ∧ demo_isclass "Untyped" = true
  ∧ ∃ cause, e = AutoWireFailure "Untyped" cause.
Proof.
  intros st e.
  assert (Hget : get demo 2 "Untyped" st = (Raise e, st)) by reflexivity.
  split; [exact Hget|].
  destruct (get_failure_classified demo 2 "Untyped" st e st Hget)
    as [(Hd & _)|[(_ & f & Hf & _)|[(_ & Hc & _)|(Hu & Hc & [Hw|He])]]];
    try discriminate.
  by repeat split.
Defined.

Lemma registrations_commute_witness :
  let r1 := RegisterSingleton "K" (VInt 1) in
  let r2 := RegisterInstance "K" (VInt 2) in
  let c : DIContainer string demo_value demo_callable := __init__ in
  (registration_key r1 ≠ registration_key r2
   ∨ registration_variant r1 ≠ registration_variant r2)
  ∧ register r1 (register r2 c) = register r2 (register r1 c).
Proof.
  intros r1 r2 c.
  assert (Hd : registration_key r1 ≠ registration_key r2
               ∨ registration_variant r1 ≠ registration_variant r2).
  { right. discriminate. }
  split; [exact Hd|].
  exact (registrations_commute r1 r2 c Hd).
Defined.

Lemma auto_wired_class_built_on_every_get_witness :
  let st := boot (register_singleton "Database" db __init__) in
  (unregistered (di st) "Service"
   ∧ demo_isclass "Service" = true
   ∧ Forall (quiet (di st)) (demo_parameters "Service")
   ∧ ∀ w, (demo_run_init "Service" [("db", db)] (di st) w).1.2 = di st)
  ∧ (unregistered (di st) "Untyped"
     ∧ demo_isclass "Untyped" = true
     ∧ Forall (quiet (di st)) (demo_parameters "Untyped")
     ∧ ∀ w, (demo_run_init "Untyped" [] (di st) w).1.2 = di st)
  ∧ calls (repeat_call 3 (get demo 2 "Service") st).2
    = [Constructed "Service" [("db", db)];
       Constructed "Service" [("db", db)];
       Constructed "Service" [("db", db)]]
  ∧ calls (repeat_call 3 (get demo 2 "Untyped") st).2 = []
  ∧ di (repeat_call 3 (get demo 2 "Service") st).2 = di st.
Proof.
  intros st.
  assert (Hu : ∀ k, k ≠ "Database" → unregistered (di st) k).
  { intros k Hk. repeat split. simpl. by rewrite lookup_insert_ne. }
  assert (Hq : Forall (quiet (di st)) (demo_parameters "Service")).
  { constructor; [by left|]. constructor; [|constructor].
    right; right. exists "Database". split; [reflexivity|by exists db]. }
  assert (Hq' : Forall (quiet (di st)) (demo_parameters "Untyped")).
  { constructor; [by left|]. constructor; [|constructor].
    right; by left. }
  assert (Hi : ∀ w, (demo_run_init "Service" [("db", db)] (di st) w).1.2
                    = di st) by reflexivity.
  assert (Hi' : ∀ w, (demo_run_init "Untyped" [] (di st) w).1.2 = di st)
    by reflexivity.
  destruct (auto_wired_class_built_on_every_get demo "Service" 0 3 st
              (Hu "Service" ltac:(discriminate)) eq_refl Hq Hi)
    as [Hcalls Hdi].
  destruct (auto_wired_class_built_on_every_get demo "Untyped" 0 3 st
              (Hu "Untyped" ltac:(discriminate)) eq_refl Hq' Hi')
    as [Hcalls' _].
  split; [repeat split; try done; by apply Hu|].
  split; [repeat split; try done; by apply Hu|].
  split; [exact Hcalls|]. split; [exact Hcalls'|exact Hdi].
Defined.

Lemma global_demo_ignores_container : ignores_container global_demo.
Proof.
  split.
  - intros f c c' w. by destruct f.
  - intros cls kwargs c c' w. simpl. unfold demo_run_init.
    by destruct (String.eqb cls "Fatal").
Defined.

Lemma injectable_changes_no_return_witness :
  let st := boot (register_all
                    [RegisterSingleton "Database" db;
                     RegisterTransient "id" (UserCallable next_id)]
                    __init__) in
  let obj := VObject "Service" [("db", db)] in
  (ignores_container global_demo
   ∧ demo_isclass "Service" = true
   ∧ _factories (di st) !! "Service" = None)
  ∧ (injectable "Service" st).1 = "Service"
  ∧ (inject global_demo "Service" 3 st).1 = Return obj
  ∧ (inject global_demo "Service" 6 (injectable "Service" st).2).1
    = Return obj
  ∧ (inject global_demo "Service" 4 (injectable "Service" st).2).1
    = Return obj
  ∧ (inject global_demo "Service" 4 st).1 = Return obj
  ∧ (inject global_demo "Service" 3 (injectable "Service" st).2).1
    = Raise (AutoWireFailure "Service" RecursionError).
Proof.
  intros st obj.
  assert (Hf : _factories (di st) !! "Service" = None) by reflexivity.
  destruct (injectable_changes_no_return global_demo "Service"
              st global_demo_ignores_container eq_refl Hf)
    as (H1 & H2 & H3).
  assert (Hplain : inject global_demo "Service" 3 st
                   = (Return obj, (inject global_demo "Service" 3 st).2))
    by reflexivity.
  assert (Hdec : inject global_demo "Service" 4 (injectable "Service" st).2
                 = (Return obj,
                    (inject global_demo "Service" 4
                       (injectable "Service" st).2).2))
    by reflexivity.
  pose proof (H2 3 "Service" obj _ Hplain) as H2'.
  pose proof (H3 4 "Service" obj _ Hdec) as H3'.
  split; [by repeat split; try apply global_demo_ignores_container|].
  split; [exact H1|]. split; [by rewrite Hplain|].
  split; [exact (f_equal fst H2')|]. split; [by rewrite Hdec|].
  split; [exact (f_equal fst H3')|]. reflexivity.
Defined.

Lemma transient_dependency_built_per_parameter_witness :
  let st := boot (register_transient "id" next_id __init__) in
  (unregistered (di st) "Pair" ∧ isclass pair_demo "Pair" = true)
  ∧ invocations (calls (get pair_demo 2 "Pair" st).2) = [next_id; next_id]
  ∧ (get pair_demo 2 "Pair" st).1
    = Return (VObject "Pair" [("left", VInt 0); ("right", VInt 1)]).
Proof.
  intros st.
  assert (Hu : unregistered (di st) "Pair") by (repeat split).
  assert (Hps : ∀ p t, p ∈ parameters pair_demo "Pair" → wired_as p t →
            fixed_value (di st) t = None
            ∧ ∃ f, _factories (di st) !! t = Some f
                   ∧ ∀ w, ∃ v w',
                       run_callable pair_demo f (di st) w
                       = (Return v, di st, w')).
  { intros p t Hp [Hself Hann]. simpl in Hp.
    assert (t = "id") as ->.
    { apply elem_of_cons in Hp as [->|Hp]; [discriminate|].
      apply elem_of_cons in Hp as [->|Hp]; [by injection Hann|].
      apply list_elem_of_singleton in Hp as ->. by injection Hann. }
    split; [reflexivity|]. exists next_id. split; [reflexivity|].
    intros w. by exists (VInt w), (S w). }
  split; [by split|]. split; [|reflexivity].
  exact (transient_dependency_built_per_parameter pair_demo "Pair" 0 st
           Hu eq_refl Hps).
Defined.

(** * Properties of the response helpers *)

Section ResponseFacts.

Import Response.
Local Open Scope Z_scope.

Lemma paginated_Some now items page per_page total msg pages :
  total_pages total per_page = Some pages →
  ∃ r, paginated now items page per_page total msg = Some r
       ∧ success r = true ∧ errors r = None
       ∧ pagination_field r "total_pages" = Some (PyInt pages)
       ∧ pagination_field r "has_next" = Some (PyBool (page <? pages))
       ∧ pagination_field r "has_prev" = Some (PyBool (1 <? page)).
Proof.
  intros Hp. unfold paginated, PaginatedResponse_init. rewrite Hp.
  eexists. split; [reflexivity|]. by repeat split.
Qed.

Lemma total_pages_ceiling total per_page :
  0 < total → 0 < per_page →
  ∃ pages, total_pages total per_page = Some pages
           ∧ (pages - 1) * per_page < total ≤ pages * per_page.
Proof.
  intros Ht Hpp. unfold total_pages.
  destruct (Z.ltb_spec 0 total) as [_|?]; [|lia].
  destruct (Z.eqb_spec per_page 0) as [?|_]; [lia|].
  eexists. split; [reflexivity|].
  pose proof (Z.div_mod (total + per_page - 1) per_page) as Hdm.
  pose proof (Z.mod_pos_bound (total + per_page - 1) per_page Hpp) as Hb.
  nia.
Qed.

(** X8. For a positive number of items and a positive page size,
    [paginated] reports as [total_pages] the least number of pages that
    hold all the items: the pages before the last do not hold them, all
    the pages do. *)
Theorem paginated_total_pages_is_ceiling now items page per_page total msg :
  0 < total → 0 < per_page →
  ∃ r pages,
    paginated now items page per_page total msg = Some r
    ∧ pagination_field r "total_pages" = Some (PyInt pages)
    ∧ (pages - 1) * per_page < total ≤ pages * per_page.
Proof.
  intros Ht Hpp.
  destruct (total_pages_ceiling total per_page Ht Hpp) as (pages & Hp & Hb).
  destruct (paginated_Some now items page per_page total msg pages Hp)
    as (r & Hr & _ & _ & Htp & _).
  by exists r, pages.
Qed.

(** X9. With a positive page size and no negative total, [has_next] says
    whether items are left after the pages up to [page], and [has_prev]
    whether [page] is after page 1. *)
Theorem paginated_has_next_iff_items_left now items page per_page total msg :
  0 ≤ total → 0 < per_page →
  ∃ r,
    paginated now items page per_page total msg = Some r
    ∧ pagination_field r "has_next"
      = Some (PyBool (bool_decide (page * per_page < total)))
    ∧ pagination_field r "has_prev" = Some (PyBool (bool_decide (1 < page))).
Proof.
  intros Ht Hpp.
  assert (∃ pages, total_pages total per_page = Some pages
                   ∧ (page < pages ↔ page * per_page < total))
    as (pages & Hp & Hiff).
  { destruct (decide (total = 0)) as [->|Hne].
    - exists 0. split; [done|]. nia.
    - destruct (total_pages_ceiling total per_page) as (pages & Hp & Hb);
        [lia..|].
      exists pages. split; [done|]. nia. }
  destruct (paginated_Some now items page per_page total msg pages Hp)
    as (r & Hr & _ & _ & _ & Hnext & Hprev).
  exists r. split; [done|]. rewrite Hnext, Hprev. split.
  - do 2 f_equal. destruct (Z.ltb_spec page pages);
      [rewrite bool_decide_eq_true_2|rewrite bool_decide_eq_false_2];
      try done; [by apply Hiff|]. intros ?%Hiff. lia.
  - do 2 f_equal. destruct (Z.ltb_spec 1 page);
      [rewrite bool_decide_eq_true_2|rewrite bool_decide_eq_false_2];
      try done. lia.
Qed.

Lemma collect_errors_from (acc : list string) ves :
  fold_left
    (λ errors '(field, field_errors),
       fold_left (λ errors error, errors ++ [(field ++ ": " ++ error)%string])
                 field_errors errors)
    ves acc
  = (acc ++ flat_map (λ '(field, field_errors),
                        map (λ error, (field ++ ": " ++ error)%string)
                            field_errors) ves)%list.
Proof.
  revert acc. induction ves as [|[field es] ves IH]; intros acc; simpl.
  { by rewrite app_nil_r. }
  rewrite IH. rewrite app_assoc. f_equal.
  clear IH. revert acc. induction es as [|e es IHes]; intros acc; simpl.
  { by rewrite app_nil_r. }
  by rewrite IHes, <- app_assoc.
Qed.

(** X11. [validation_error] lists one message per error of each field,
    field by field and in the order given, each message being the name
    of the field, a colon and a space, and the error; it is an error
    response ([success] false), and with nothing to report its list of
    errors is empty, not missing. *)
Theorem validation_error_lists_every_error now ves msg :
  let r := validation_error now ves msg in
  errors r
  = Some (flat_map (λ '(field, field_errors),
                      map (λ error, (field ++ ": " ++ error)%string)
                          field_errors) ves)
  ∧ (∀ es, errors r = Some es →
       length es = sum_list (map (λ fe, length fe.2) ves))
  ∧ success r = false.
Proof.
  intros r.
  assert (Herr : errors r
    = Some (flat_map (λ '(field, field_errors),
                        map (λ error, (field ++ ": " ++ error)%string)
                            field_errors) ves)).
  { subst r. unfold validation_error, ValidationErrorResponse_init,
      ErrorResponse_init, collect_errors. simpl.
    rewrite collect_errors_from. simpl.
    by destruct (flat_map _ ves). }
  split; [done|]. split; [|done].
  intros es. rewrite Herr. intros [= <-].
  clear. induction ves as [|[field fes] ves IH]; [done|].
  simpl. rewrite length_app, length_map, IH. done.
Qed.

End ResponseFacts.

(** * Properties of the cache key *)

Section CacheKeyFacts.

Context {value : Type} (str : value → string).

Local Abbreviation render :=
  (λ kv : string * value, (kv.1 ++ "=" ++ str kv.2)%string).
Local Abbreviation nonempty := (λ s : string, negb (String.eqb s "")).

#[local] Instance by_key_transitive : Transitive (by_key (value:=value)).
Proof. intros x y z. unfold by_key. apply transitivity. Qed.

#[local] Instance by_key_total : Total (by_key (value:=value)).
Proof. intros x y. unfold by_key. apply total, _. Qed.

Lemma fst_inj_on_NoDup (l : list (string * value)) x y :
  NoDup (map fst l) → x ∈ l → y ∈ l → x.1 = y.1 → x = y.
Proof.
  induction l as [|z l IH]; simpl; intros Hnd Hx Hy Hxy.
  { by apply elem_of_nil in Hx. }
  apply NoDup_cons in Hnd as [Hz Hnd].
  apply elem_of_cons in Hx as [->|Hx]; apply elem_of_cons in Hy as [->|Hy].
  - done.
  - destruct Hz. rewrite Hxy. by apply (list_elem_of_fmap_2 fst).
  - destruct Hz. rewrite <- Hxy. by apply (list_elem_of_fmap_2 fst).
  - by apply IH.
Qed.

Lemma sorted_items_unique (kwargs kwargs' : list (string * value)) :
  NoDup (map fst kwargs) → kwargs ≡ₚ kwargs' →
  merge_sort by_key kwargs = merge_sort by_key kwargs'.
Proof.
  intros Hnd Hperm.
  apply (StronglySorted_unique_strong by_key).
  - intros x1 x2 Hx1 Hx2 H12 H21.
    apply (fst_inj_on_NoDup kwargs); [done| | |].
    + by rewrite merge_sort_Permutation in Hx1.
    + by rewrite merge_sort_Permutation, <- Hperm in Hx2.
    + unfold by_key in *. by apply (anti_symm String.le).
  - apply StronglySorted_merge_sort; apply _.
  - apply StronglySorted_merge_sort; apply _.
  - by rewrite !merge_sort_Permutation.
Qed.

(** The key without the two tests for emptiness, which change nothing. *)
Lemma cache_key_unfold prefix name args kwargs :
  cache_key str prefix name args kwargs
  = String.concat ":"
      (List.filter nonempty
         ([prefix; name] ++ map str args
          ++ map render (merge_sort by_key kwargs))).
Proof.
  unfold cache_key. destruct args as [|a args], kwargs as [|kv kwargs];
    try reflexivity.
  all: do 2 f_equal; by rewrite ?app_nil_r, <- ?app_assoc.
Qed.

(** X12. The key does not depend on the order in which the keyword
    arguments of the call are written. *)
Theorem cache_key_ignores_keyword_order prefix name args kwargs kwargs' :
  NoDup (map fst kwargs) → kwargs ≡ₚ kwargs' →
  cache_key str prefix name args kwargs
  = cache_key str prefix name args kwargs'.
Proof.
  intros Hnd Hperm. rewrite !cache_key_unfold.
  by rewrite (sorted_items_unique kwargs kwargs').
Qed.





Lemma key_parts_filter prefix name (xs ys ks : list string) :
  List.filter nonempty ([prefix; name] ++ (xs ++ ys) ++ ks)
  = (List.filter nonempty ([prefix; name] ++ xs)
     ++ List.filter nonempty ys ++ List.filter nonempty ks)%list.
Proof.
  rewrite !app_assoc, !List.filter_app. by rewrite <- !app_assoc.
Qed.

(** X13. A positional argument that prints as the empty string leaves no
    trace in the key: the call has the key of the call without that
    argument. *)
Theorem cache_key_drops_empty_argument prefix name args1 a args2 kwargs :
  str a = "" →
  cache_key str prefix name (args1 ++ a :: args2) kwargs
  = cache_key str prefix name (args1 ++ args2) kwargs.
Proof.
  intros Ha. rewrite !cache_key_unfold. f_equal.
  rewrite !map_app. cbn [map]. rewrite Ha.
  rewrite !key_parts_filter. by cbn [List.filter].
Qed.


End CacheKeyFacts.

(** ** The response and cache-key theorems at concrete inputs *)

Lemma paginated_total_pages_is_ceiling_witness :
  (0 < 25 ∧ 0 < 10)%Z
  ∧ ∃ r pages,
      Response.paginated 0 [] 2 10 25 "Success" = Some r
      ∧ Response.pagination_field r "total_pages"
        = Some (Response.PyInt pages)
      ∧ ((pages - 1) * 10 < 25 ≤ pages * 10)%Z.
Proof.
  assert (Ht : (0 < 25)%Z) by lia.
  assert (Hp : (0 < 10)%Z) by lia.
  split; [by split|].
  exact (paginated_total_pages_is_ceiling 0 [] 2 10 25 "Success" Ht Hp).
Defined.

Lemma paginated_has_next_iff_items_left_witness :
  (0 ≤ 25 ∧ 0 < 10)%Z
  ∧ ∃ r,
      Response.paginated 0 [] 3 10 25 "Success" = Some r
      ∧ Response.pagination_field r "has_next"
        = Some (Response.PyBool (bool_decide (3 * 10 < 25)%Z))
      ∧ Response.pagination_field r "has_prev"
        = Some (Response.PyBool (bool_decide (1 < 3)%Z)).
Proof.
  assert (Ht : (0 ≤ 25)%Z) by lia.
  assert (Hp : (0 < 10)%Z) by lia.
  split; [by split|].
  exact (paginated_has_next_iff_items_left 0 [] 3 10 25 "Success" Ht Hp).
Defined.

Lemma cache_key_ignores_keyword_order_witness :
  let kwargs := [("b", "2"); ("a", "1")] in
  let kwargs' := [("a", "1"); ("b", "2")] in
  (NoDup (map fst kwargs) ∧ kwargs ≡ₚ kwargs')
  ∧ cache_key id "users" "find" ["x"] kwargs
    = cache_key id "users" "find" ["x"] kwargs'
  ∧ cache_key id "users" "find" ["x"] kwargs' = "users:find:x:a=1:b=2".
Proof.
  intros kwargs kwargs'.
  assert (Hnd : NoDup (map fst kwargs)).
  { apply NoDup_cons. split; [|apply NoDup_singleton].
    intros Hin. apply list_elem_of_singleton in Hin. discriminate. }
  assert (Hperm : kwargs ≡ₚ kwargs') by apply perm_swap.
  split; [by split|]. split; [|reflexivity].
  exact (cache_key_ignores_keyword_order id "users" "find" ["x"]
           kwargs kwargs' Hnd Hperm).
Defined.

Lemma cache_key_drops_empty_argument_witness :
  id "" = ""
  ∧ cache_key id "" "find" ([] ++ "" :: []) []
    = cache_key id "" "find" ([] ++ []) []
  ∧ cache_key id "" "find" [] [] = "find".
Proof.
  split; [reflexivity|]. split; [|reflexivity].
  exact (cache_key_drops_empty_argument id "" "find" [] "" [] []
           eq_refl).
Defined.

